(** * camera-app backend: the photo index and its HTTP handlers

    A shallow embedding of [src/backend/index.js].  The server keeps an
    in-memory array [photos] and a directory of files written by multer.
    Each Express handler is a function from the state of the server and the
    request to a response and the next state; requests are handled one at a
    time.  What a handler reads from its environment (the clock,
    [Math.random], the outcome of a disk write or unlink) is an explicit
    argument of the request.

    Modelled: GET /api/photos, POST /api/upload with the multer middleware,
    GET /api/photos/:filename, DELETE /api/photos/:id, GET /api/info, the
    error middleware and the final 404 handler.  Not modelled: the health
    route, static files and CORS; of the way Express finds the route of a
    request, only the parameter of the routes /api/photos/:filename and
    /api/photos/:id.

    Of the client, the calls of its api module and what the handlers of the
    component Camera do to its list of photos are modelled, each handler as
    a function on the state of the component; the camera stream and the
    rendering are not.

    Strings are byte strings (the UTF-8 bytes of the JavaScript string),
    numbers that the code uses as integers are [Z] or [N], the blob of a
    photo is a [list byte], the disk is a finite map from the paths of its
    files to blobs.

    The functions of JavaScript, Node and the packages express, multer,
    busboy and send are modelled as far as the server uses them.  Where an
    older version of a package behaves differently, the definition says so,
    and the properties are stated so that they hold for both. *)

From Stdlib Require Import ZArith Ascii String Strings.Byte List Lia.
From stdpp Require Import gmap strings pretty list sorting.

Local Open Scope Z_scope.

(** ** JavaScript primitives used by the server *)

Module Js.

(** [String.prototype.startsWith]. *)
Definition startsWith (s prefix : string) : bool := String.prefix prefix s.

(** [Number.prototype.toString] on an integer below 1e21: plain decimal
    digits, with a leading minus sign for a negative number. *)
Definition toString (x : Z) : string := pretty x.

(** White space with a one-byte encoding: TAB, LF, VT, FF, CR and SP. *)
Definition isWhiteSpace (c : ascii) : bool :=
  let code := N_of_ascii c in
  ((9 <=? code) && (code <=? 13) || (code =? 32))%N.

(** The third byte of a white space character U+2000 to U+200A, U+2028,
    U+2029 or U+202F, whose encoding starts with the bytes E2 80. *)
Definition isGeneralPunctuationSpace (c : ascii) : bool :=
  let code := N_of_ascii c in
  ((128 <=? code) && (code <=? 138)
   || (code =? 168) || (code =? 169) || (code =? 175))%N.

(** The white space that [parseInt] skips (TrimString on the left): the
    WhiteSpace and LineTerminator characters of ECMAScript, in UTF-8.  The
    longer encodings are U+00A0, U+1680, U+2000 to U+200A, U+2028, U+2029,
    U+202F, U+205F, U+3000 and U+FEFF. *)
Fixpoint trimStart (s : string) : string :=
  match s with
  | EmptyString => s
  | String c rest =>
      if isWhiteSpace c then trimStart rest
      else
        match c, rest with
        | "194", String "160" rest2 => trimStart rest2
        | "225", String "154" (String "128" rest3) => trimStart rest3
        | "226", String "128" (String c3 rest3) =>
            if isGeneralPunctuationSpace c3 then trimStart rest3 else s
        | "226", String "129" (String "159" rest3) => trimStart rest3
        | "227", String "128" (String "128" rest3) => trimStart rest3
        | "239", String "187" (String "191" rest3) => trimStart rest3
        | _, _ => s
        end%char
  end.

(** The value of a character as a digit, for radixes up to 16: [0]-[9],
    [a]-[f] and [A]-[F], by their character codes. *)
Definition digitValue (c : ascii) : option N :=
  let code := N_of_ascii c in
  (if (48 <=? code) && (code <=? 57) then Some (code - 48)
   else if (97 <=? code) && (code <=? 102) then Some (code - 87)
   else if (65 <=? code) && (code <=? 70) then Some (code - 55)
   else None)%N.

Definition radixDigit (R : N) (c : ascii) : option N :=
  match digitValue c with
  | Some d => if (d <? R)%N then Some d else None
  | None => None
  end.

(** The longest prefix of radix-[R] digits of [s], as a number; [acc] is
    the value of the digits read so far, [None] when there is none yet. *)
Fixpoint digitsPrefix (R : N) (acc : option N) (s : string) : option N :=
  match s with
  | String c s' =>
      match radixDigit R c with
      | Some d => digitsPrefix R (Some (default 0 acc * R + d)%N) s'
      | None => acc
      end
  | EmptyString => acc
  end.

Definition stripSign (s : string) : bool * string :=
  match s with
  | String "-" s' => (true, s')
  | String "+" s' => (false, s')
  | _ => (false, s)
  end.

(** The rest of [s] after a leading [0x] or [0X]. *)
Definition stripHexPrefix (s : string) : option string :=
  match s with
  | String "0" (String "x" rest) | String "0" (String "X" rest) => Some rest
  | _ => None
  end.

Definition applySign (negative : bool) (n : N) : Z :=
  if negative then - Z.of_N n else Z.of_N n.

(** [parseInt(string)] with no radix argument (ECMA-262, 19.2.5): skip
    leading white space, read an optional sign, switch to radix 16 after
    [0x] or [0X], read the longest prefix of digits.  [None] is NaN.  The
    result is exact: the rounding of integers beyond 2^53 to a double is
    not modelled. *)
Definition parseInt (s : string) : option Z :=
  let '(negative, s1) := stripSign (trimStart s) in
  let digits :=
    match stripHexPrefix s1 with
    | Some rest => digitsPrefix 16 None rest
    | None => digitsPrefix 10 None s1
    end in
  applySign negative <$> digits.

(** [decodeURIComponent] on bytes: each [%XX] becomes the byte XX.  [None]
    stands for the URIError of a malformed escape.  The check that the
    decoded bytes are well-formed UTF-8 is not modelled. *)
Fixpoint decodeURIComponent (s : string) : option string :=
  match s with
  | EmptyString => Some EmptyString
  | String "%" (String h (String l rest)) =>
      match digitValue h, digitValue l with
      | Some a, Some b =>
          String (ascii_of_N (16 * a + b)) <$> decodeURIComponent rest
      | _, _ => None
      end
  | String "%" _ => None
  | String c rest => String c <$> decodeURIComponent rest
  end.

(** [s] without its prefix [prefix], when it starts with it. *)
Fixpoint dropPrefix (prefix s : string) : option string :=
  match prefix, s with
  | EmptyString, _ => Some s
  | String a prefix', String b s' =>
      if Ascii.eqb a b then dropPrefix prefix' s' else None
  | String _ _, EmptyString => None
  end.

(** [Array.prototype.findIndex]; [None] stands for the result [-1]. *)
Fixpoint findIndex {A} (f : A → bool) (l : list A) : option nat :=
  match l with
  | [] => None
  | x :: l' => if f x then Some 0%nat else S <$> findIndex f l'
  end.

(** [array.splice(i, 1)]: the array without its element at index [i]. *)
Definition splice1 {A} (i : nat) (l : list A) : list A := delete i l.

End Js.

(** ** node:path on POSIX *)

Module Path.

(** [s.split('/')]. *)
Fixpoint split (s : string) : list string :=
  match s with
  | EmptyString => [EmptyString]
  | String c s' =>
      if Ascii.eqb c "/" then EmptyString :: split s'
      else match split s' with
           | seg :: rest => String c seg :: rest
           | [] => [String c EmptyString]
           end
  end.

Fixpoint endsWithSlash (s : string) : bool :=
  match s with
  | EmptyString => false
  | String c EmptyString => Ascii.eqb c "/"
  | String _ s' => endsWithSlash s'
  end.

(** One step of normalizeString: [dir] is the stack of segments kept so
    far.  Empty and ["."] segments are dropped, [".."] removes the last
    kept segment; at the top, [".."] is dropped for an absolute path and
    kept for a relative one. *)
Definition pushSegment (absolute : bool) (dir : list string) (seg : string)
  : list string :=
  if decide (seg = "" ∨ seg = ".") then dir
  else if decide (seg = "..") then
    match last dir with
    | None => if absolute then dir else [".."]
    | Some prev => if decide (prev = "..") then dir ++ [seg]
                   else removelast dir
    end
  else dir ++ [seg].

Definition normalizeSegments (absolute : bool) (dir : list string)
    (segs : list string) : list string :=
  foldl (pushSegment absolute) dir segs.

Fixpoint render (segs : list string) : string :=
  match segs with
  | [] => ""
  | [seg] => seg
  | seg :: rest => seg +:+ "/" +:+ render rest
  end.

(** [path.normalize]. *)
Definition normalize (p : string) : string :=
  let absolute := Js.startsWith p "/" in
  let body := render (normalizeSegments absolute [] (split p)) in
  match body, absolute with
  | EmptyString, true => "/"
  | EmptyString, false => if endsWithSlash p then "./" else "."
  | _, _ =>
      (if absolute then "/" else "") +:+ body
      +:+ (if endsWithSlash p then "/" else "")
  end.

(** [path.join(a, b)] for two strings. *)
Definition join (a b : string) : string :=
  match a, b with
  | EmptyString, EmptyString => "."
  | EmptyString, _ => normalize b
  | _, EmptyString => normalize a
  | _, _ => normalize (a +:+ "/" +:+ b)
  end.

(** An absolute normalized path: its segments from the root, and whether
    the string it came from ended in a separator (it then names a
    directory). *)
Record t := mk { segments : list string; trailing : bool }.

(** [path.join(dir, p)] where [dir] is an absolute normalized directory
    given by its segments: the segments of [p] are pushed on [dir]. *)
Definition joinDir (dir : list string) (p : string) : t :=
  {| segments := normalizeSegments true dir (split p);
     trailing := endsWithSlash p |}.

(** [path.resolve(cwd, p)], what the fs functions do with a path. *)
Definition resolve (cwd : list string) (p : string) : t :=
  if Js.startsWith p "/" then joinDir [] p else joinDir cwd p.

End Path.

(** ** The file system

    A regular file is an entry of the disk under the segments of its
    absolute path, with its bytes.  A directory is a path that an entry of
    the disk lies beneath.  A directory that holds nothing is written as an
    entry under its segments followed by one empty segment, which is the
    name of no file; the bytes of such an entry mean nothing.  The paths
    that the server builds are normalized and have no empty segment, so
    that they name no such entry.  The server creates and removes no
    directory once it has started. *)

Module Fs.

(** The bytes of the regular file at [p]; a path that ends in a separator
    names no regular file. *)
Definition readFile (d : gmap (list string) (list byte)) (p : Path.t)
  : option (list byte) :=
  if Path.trailing p then None else d !! Path.segments p.

(** The path [k] lies beneath the directory [dir]. *)
Definition beneath (dir k : list string) : Prop :=
  dir `prefix_of` k ∧ k ≠ dir.

#[global] Instance beneath_dec (dir k : list string) :
  Decision (beneath dir k).
Proof. unfold beneath. apply _. Defined.

(** There is a directory at [p]: an entry of the disk lies beneath it. *)
Definition isDirectory (d : gmap (list string) (list byte)) (p : Path.t)
  : bool :=
  bool_decide (map_Exists (λ k _, beneath (Path.segments p) k) d).

(** [fs.existsSync]: there is a regular file or a directory at [p]. *)
Definition existsSync (d : gmap (list string) (list byte)) (p : Path.t)
  : bool :=
  bool_decide (is_Some (readFile d p)) || isDirectory d p.

(** The message of the error of [fs.stat] for the path [segs] with nothing
    at it: ENOTDIR when the path leads through a regular file, ENOENT
    otherwise. *)
Definition statError (d : gmap (list string) (list byte))
    (segs : list string) : string :=
  (if existsb (λ n, bool_decide (is_Some (d !! take n segs)))
              (seq 0 (length segs))
   then "ENOTDIR: not a directory"
   else "ENOENT: no such file or directory")
  +:+ ", stat '/" +:+ Path.render segs +:+ "'".

Definition writeFile (d : gmap (list string) (list byte)) (p : Path.t)
    (content : list byte) : gmap (list string) (list byte) :=
  <[Path.segments p := content]> d.

Definition unlink (d : gmap (list string) (list byte)) (p : Path.t)
  : gmap (list string) (list byte) :=
  delete (Path.segments p) d.

(** How a write to disk ends: the whole content is written, or the stream
    fails with an error and leaves what had reached the disk by then
    (nothing when the file could not even be opened). *)
Inductive WriteOutcome :=
| WriteOk
| WriteError (message : string) (residue : option (list byte)).

(** How [unlinkSync] on an existing path ends (on a directory, always
    with an error). *)
Inductive UnlinkOutcome :=
| UnlinkOk
| UnlinkError (message : string).

End Fs.

(** ** multer

    The middleware [upload.single('photo')], as far as the server configures
    it: a disk storage with a destination and a file name generator, a limit
    on the file size and a file filter.  The request is reduced to its part
    named [photo], if it has one. *)

Module Multer.

(** The part as it arrives. *)
Record Part := mkPart {
  part_originalname : string;
  part_mimetype : string;
  part_content : list byte
}.

(** [req.file], what the disk storage reports about a stored part. *)
Record File := mkFile {
  filename : string;
  originalname : string;
  path : string;
  size : N;
  mimetype : string
}.

Inductive Error :=
| MulterError (code message : string)
| OtherError (message : string).

Definition message (e : Error) : string :=
  match e with
  | MulterError _ m => m
  | OtherError m => m
  end.

Record Options := mkOptions {
  destination : string;
  fileSize : N;
  fileFilter : Part → option Error   (* [None]: the part is accepted *)
}.

Inductive Result :=
| NoFile                                    (* [req.file] is undefined *)
| Stored (file : File) (d : gmap (list string) (list byte))
| Failed (error : Error) (d : gmap (list string) (list byte)).

(** The first [n] elements of [l], for a binary [n]. *)
Fixpoint truncate {A} (n : N) (l : list A) : list A :=
  match l with
  | [] => []
  | x :: l' => if (n =? 0)%N then [] else x :: truncate (N.pred n) l'
  end.

(** The filter runs before the storage is touched.  The disk storage then
    streams the part to [path.join(destination, name)].  When the write
    stream fails, multer passes its error on and removes nothing.  busboy
    counts the bytes of the part and cuts it when they reach [fileSize]
    (before version 1: when they exceed it); multer then removes the file
    it had been writing and fails with LIMIT_FILE_SIZE. *)
Definition single (opts : Options) (cwd : list string) (name : string)
    (write : Fs.WriteOutcome) (d : gmap (list string) (list byte))
    (part : option Part) : Result :=
  match part with
  | None => NoFile
  | Some p =>
      match fileFilter opts p with
      | Some err => Failed err d
      | None =>
          let finalPath := Path.join (destination opts) name in
          let target := Path.resolve cwd finalPath in
          let bytes := N.of_nat (length (part_content p)) in
          match write with
          | Fs.WriteError msg residue =>
              Failed (OtherError msg)
                     (match residue with
                      | Some partial => Fs.writeFile d target partial
                      | None => d
                      end)
          | Fs.WriteOk =>
              if (fileSize opts <=? bytes)%N then
                let partial := truncate (fileSize opts) (part_content p) in
                Failed (MulterError "LIMIT_FILE_SIZE" "File too large")
                       (Fs.unlink (Fs.writeFile d target partial) target)
              else
                Stored {| filename := name;
                          originalname := part_originalname p;
                          path := finalPath;
                          size := bytes;
                          mimetype := part_mimetype p |}
                       (Fs.writeFile d target (part_content p))
          end
      end
  end.

End Multer.

(** ** The server, [src/backend/index.js] *)

(** Where the process runs: [__dirname] of index.js and the working
    directory of the process, both absolute, by their segments. *)
Record Config := mkConfig {
  dirname : list string;
  cwd : list string
}.

(** [uploadsDir = path.join(__dirname, 'uploads')]. *)
Definition uploadsDir (cfg : Config) : list string :=
  Path.segments (Path.joinDir (dirname cfg) "uploads").

(** An element of the array [photos].  [timestamp] is the instant that the
    code renders with [toISOString]. *)
Record PhotoData := mkPhotoData {
  id : Z;
  filename : string;
  originalName : string;
  path : string;
  size : N;
  mimetype : string;
  timestamp : Z
}.

(** The state of the process: the array [photos], the disk, and the lines
    written with [console.error]. *)
Record State := mkState {
  photos : list PhotoData;
  disk : gmap (list string) (list byte);
  console : list string
}.

Definition initial (d : gmap (list string) (list byte)) : State :=
  {| photos := []; disk := d; console := [] |}.

(** What one upload reads from its environment, in the order the code reads
    it: [Date.now()] and [Math.round(Math.random() * 1E9)] in the file name
    generator, the outcome of the write, [Date.now()] for the id and
    [new Date()] for the timestamp. *)
Record UploadEnv := mkUploadEnv {
  nowFilename : Z;
  random : N;
  write : Fs.WriteOutcome;
  nowId : Z;
  nowTimestamp : Z
}.

(** The objects the handlers send as JSON, and a file sent by [sendFile]. *)
Record PhotoView := mkPhotoView {
  view_id : Z;
  view_filename : string;
  view_originalName : string;
  view_url : string;
  view_timestamp : Z
}.

Record UploadedView := mkUploadedView {
  uploaded_id : Z;
  uploaded_filename : string;
  uploaded_url : string;
  uploaded_timestamp : Z
}.

(** [RouteNotFound] is the object of the final handler, which has, after
    these two fields, the path and the method of the request. *)
Inductive Body :=
| Message (success : bool) (message : string)
| PhotoList (success : bool) (count : nat) (views : list PhotoView)
| Uploaded (success : bool) (message : string) (photo : UploadedView)
| SentFile (content : list byte)
| RouteNotFound (success : bool) (message : string).

Record Response := mkResponse { status : Z; body : Body }.

(** [res.json(b)] answers with status 200 unless [res.status] was called. *)
Definition json (b : Body) : Response := {| status := 200; body := b |}.

(** The storage's [filename] callback. *)
Definition storageFilename (now : Z) (rnd : N) : string :=
  let uniqueSuffix := Js.toString now +:+ "-" +:+ Js.toString (Z.of_N rnd) in
  "photo-" +:+ uniqueSuffix +:+ ".jpg".

Definition fileFilter (file : Multer.Part) : option Multer.Error :=
  if Js.startsWith (Multer.part_mimetype file) "image/" then None
  else Some (Multer.OtherError "Only image files are allowed!").

Definition upload : Multer.Options :=
  {| Multer.destination := "uploads/";
     Multer.fileSize := 10 * 1024 * 1024;
     Multer.fileFilter := fileFilter |}.

(** The error handling middleware. *)
Definition errorHandler (error : Multer.Error) : Response :=
  match error with
  | Multer.MulterError code _ =>
      if decide (code = "LIMIT_FILE_SIZE") then
        {| status := 400;
           body := Message false "File too large. Maximum size is 10MB." |}
      else {| status := 500; body := Message false (Multer.message error) |}
  | Multer.OtherError _ =>
      {| status := 500; body := Message false (Multer.message error) |}
  end.

Definition photoUrl (name : string) : string := "/api/photos/" +:+ name.

Definition photoView (photo : PhotoData) : PhotoView :=
  {| view_id := id photo;
     view_filename := filename photo;
     view_originalName := originalName photo;
     view_url := photoUrl (filename photo);
     view_timestamp := timestamp photo |}.

(** GET /api/photos *)
Definition getPhotos (st : State) : Response * State :=
  (json (PhotoList true (length (photos st)) (photoView <$> photos st)), st).

(** The record that the upload handler builds from [req.file]. *)
Definition photoDataOf (file : Multer.File) (env : UploadEnv) : PhotoData :=
  {| id := nowId env;
     filename := Multer.filename file;
     originalName := Multer.originalname file;
     path := Multer.path file;
     size := Multer.size file;
     mimetype := Multer.mimetype file;
     timestamp := nowTimestamp env |}.

(** The handler of POST /api/upload, after multer.  Nothing in its [try]
    block throws, so its [catch] branch is not reached. *)
Definition uploadHandler (st : State) (file : option Multer.File)
    (env : UploadEnv) : Response * State :=
  match file with
  | None => ({| status := 400; body := Message false "No file uploaded" |}, st)
  | Some f =>
      let photoData := photoDataOf f env in
      (json (Uploaded true "Photo uploaded successfully"
               {| uploaded_id := id photoData;
                  uploaded_filename := filename photoData;
                  uploaded_url := photoUrl (filename photoData);
                  uploaded_timestamp := timestamp photoData |}),
       {| photos := photos st ++ [photoData];
          disk := disk st;
          console := console st |})
  end.

(** POST /api/upload: [upload.single('photo')], then the handler, or the
    error middleware when multer fails. *)
Definition postUpload (cfg : Config) (st : State) (part : option Multer.Part)
    (env : UploadEnv) : Response * State :=
  let name := storageFilename (nowFilename env) (random env) in
  match Multer.single upload (cwd cfg) name (write env) (disk st) part with
  | Multer.NoFile => uploadHandler st None env
  | Multer.Stored file d =>
      uploadHandler {| photos := photos st; disk := d; console := console st |}
                    (Some file) env
  | Multer.Failed error d =>
      (errorHandler error,
       {| photos := photos st; disk := d; console := console st |})
  end.

(** A segment that the module send takes for a dotfile: a dot and at
    least one more character. *)
Definition isDotfile (seg : string) : bool :=
  match seg with
  | String "." (String _ _) => true
  | _ => false
  end.

(** The characters that the module send takes for separators when it
    looks for [..] in a path: the separator and the backslash. *)
Definition isSeparator (c : ascii) : bool :=
  Ascii.eqb c "/" || Ascii.eqb c "\".

(** [/(?:^|[\\/])\.\.(?:[\\/]|$)/.test(s)], the test of send for a path that
    goes up: [..] between two separators or ends of [s]; [boundary] tells
    whether the start of [s] counts as such an end. *)
Fixpoint upPath (boundary : bool) (s : string) : bool :=
  match s with
  | EmptyString => false
  | String c rest =>
      (boundary && Ascii.eqb c "."
       && match rest with
          | String "." EmptyString => true
          | String "." (String c' _) => isSeparator c'
          | _ => false
          end)
      || upPath (isSeparator c) rest
  end.

(** The test on one segment of a path, which lies between two separators
    or ends of the path. *)
Definition isUpPath (seg : string) : bool := upPath true seg.

(** The final handler (the last [app.use]), which answers what no route
    has answered. *)
Definition notFoundHandler : Response :=
  {| status := 404; body := RouteNotFound false "Route not found" |}.

(** [res.sendFile(p)] for an absolute, normalized path, with the defaults
    of the module send.  In this order: a path that goes up (see [upPath])
    is refused with the error "Forbidden"; a path with a dotfile segment is
    refused with the error "Not Found" (the default [dotfiles: 'ignore'];
    before version 1 send looked at the last segment only); for a path that
    ends in a separator the file index.html of that directory is sent, an
    index.html that is a directory is the error "Not Found", and the lack
    of it is the error of [fs.stat]; a regular file is sent; a directory
    makes [sendFile] call [next()], which leads to the final handler; and a
    path with nothing at it is the error of [fs.stat].  The errors go to
    the error middleware.  The request is a GET without a conditional or a
    range header, which would have send answer 304 or 206 for a file. *)
Definition sendFile (d : gmap (list string) (list byte)) (p : Path.t)
  : Response :=
  if existsb isUpPath (Path.segments p)
  then errorHandler (Multer.OtherError "Forbidden")
  else if existsb isDotfile (Path.segments p)
  then errorHandler (Multer.OtherError "Not Found")
  else if Path.trailing p then
    let index := Path.segments p ++ ["index.html"] in
    match d !! index with
    | Some content => {| status := 200; body := SentFile content |}
    | None =>
        if Fs.isDirectory d (Path.mk index false)
        then errorHandler (Multer.OtherError "Not Found")
        else errorHandler (Multer.OtherError (Fs.statError d index))
    end
  else
    match Fs.readFile d p with
    | Some content => {| status := 200; body := SentFile content |}
    | None =>
        if Fs.isDirectory d p then notFoundHandler
        else errorHandler
               (Multer.OtherError (Fs.statError d (Path.segments p)))
    end.

(** GET /api/photos/:filename *)
Definition getPhoto (cfg : Config) (st : State) (filename : string)
  : Response * State :=
  let photoPath := Path.joinDir (uploadsDir cfg) filename in
  if Fs.existsSync (disk st) photoPath then (sendFile (disk st) photoPath, st)
  else ({| status := 404; body := Message false "Photo not found" |}, st).

(** The path of a url: the url up to its query string or fragment. *)
Fixpoint pathname (url : string) : string :=
  match url with
  | EmptyString => EmptyString
  | String c rest =>
      if Ascii.eqb c "?" || Ascii.eqb c "#" then EmptyString
      else String c (pathname rest)
  end.

(** A letter in lower case; Express compares the fixed part of a route
    without regard to case. *)
Definition toLowerCase (c : ascii) : ascii :=
  let code := N_of_ascii c in
  if ((65 <=? code) && (code <=? 90))%N then ascii_of_N (code + 32) else c.

(** [s] without its prefix [prefix], compared without regard to case. *)
Fixpoint dropRoutePrefix (prefix s : string) : option string :=
  match prefix, s with
  | EmptyString, _ => Some s
  | String a prefix', String b s' =>
      if Ascii.eqb (toLowerCase a) (toLowerCase b)
      then dropRoutePrefix prefix' s' else None
  | String _ _, EmptyString => None
  end.

(** [s] without the one separator at its end, if it has one. *)
Fixpoint dropLastSeparator (s : string) : string :=
  match s with
  | EmptyString => EmptyString
  | String c EmptyString => if Ascii.eqb c "/" then EmptyString else s
  | String c rest => String c (dropLastSeparator rest)
  end.

(** The parameter that Express takes from the url of a request to the
    route /api/photos/:filename (or /api/photos/:id): the route is matched
    on the path of the url, without regard to the case of its fixed part,
    and one separator at the end of the path is allowed; the parameter is
    the one segment after the prefix, decoded.  [None]: the path does not
    match the route, or the parameter does not decode (Express then
    answers 400). *)
Definition photoRouteParam (url : string) : option string :=
  match dropRoutePrefix "/api/photos/" (pathname url) with
  | Some rest =>
      let segment := dropLastSeparator rest in
      if decide (segment ≠ "" ∧ "/"%char ∉ list_ascii_of_string segment)
      then Js.decodeURIComponent segment
      else None
  | None => None
  end.

(** [photo => photo.id === id], where [id] is the result of [parseInt]. *)
Definition idIs (parsed : option Z) (photo : PhotoData) : bool :=
  match parsed with
  | Some n => id photo =? n
  | None => false
  end.

(** DELETE /api/photos/:id.  [outcome] is how [unlinkSync] ends if it is
    called. *)
Definition deletePhoto (cfg : Config) (st : State) (idParam : string)
    (outcome : Fs.UnlinkOutcome) : Response * State :=
  let parsed := Js.parseInt idParam in
  match Js.findIndex (idIs parsed) (photos st) with
  | None => ({| status := 404; body := Message false "Photo not found" |}, st)
  | Some photoIndex =>
      match photos st !! photoIndex with
      | None =>
          (errorHandler (Multer.OtherError "Cannot read properties of undefined"),
           st)
      | Some photo =>
          let target := Path.resolve (cwd cfg) (path photo) in
          let '(d, log) :=
            if Fs.existsSync (disk st) target then
              match outcome with
              | Fs.UnlinkOk => (Fs.unlink (disk st) target, console st)
              | Fs.UnlinkError msg =>
                  (disk st, console st ++ ["Error deleting file: " +:+ msg])
              end
            else (disk st, console st) in
          (json (Message true "Photo deleted successfully"),
           {| photos := Js.splice1 photoIndex (photos st);
              disk := d;
              console := log |})
      end
  end.

(** A request to one of the four routes, and a run of the server. *)
Inductive Request :=
| GetPhotos
| PostUpload (part : option Multer.Part) (env : UploadEnv)
| GetPhoto (filename : string)
| DeletePhoto (idParam : string) (outcome : Fs.UnlinkOutcome).

Definition handle (cfg : Config) (st : State) (req : Request)
  : Response * State :=
  match req with
  | GetPhotos => getPhotos st
  | PostUpload part env => postUpload cfg st part env
  | GetPhoto name => getPhoto cfg st name
  | DeletePhoto idParam outcome => deletePhoto cfg st idParam outcome
  end.

Definition run (cfg : Config) (st : State) (reqs : list Request) : State :=
  foldl (λ st req, (handle cfg st req).2) st reqs.

(** The records that a run creates, in the order of their creation. *)
Definition createdBy (cfg : Config) (st : State) (req : Request)
  : list PhotoData :=
  match req with
  | PostUpload part env =>
      let name := storageFilename (nowFilename env) (random env) in
      match
        Multer.single upload (cwd cfg) name (write env) (disk st) part
      with
      | Multer.Stored file _ => [photoDataOf file env]
      | _ => []
      end
  | _ => []
  end.

Fixpoint created (cfg : Config) (st : State) (reqs : list Request)
  : list PhotoData :=
  match reqs with
  | [] => []
  | req :: reqs' =>
      createdBy cfg st req ++ created cfg (handle cfg st req).2 reqs'
  end.

(** ** The vocabulary of the properties *)

Definition isDigit (c : ascii) : bool :=
  let code := N_of_ascii c in ((48 <=? code) && (code <=? 57))%N.

(** The characters of a numeral: digits, after a minus sign at most. *)
Definition isNumeralChar (c : ascii) : bool :=
  isDigit c || Ascii.eqb c "-".

(** A plain file name: one path segment, not empty, without a separator
    and not starting with a dot (so neither ["."] nor [".."]). *)
Definition plain (s : string) : Prop :=
  s ≠ "" ∧ Js.startsWith s "." = false
  ∧ "/"%char ∉ list_ascii_of_string s.

(** A directory that [sendFile] serves from: without a segment that
    starts with a dot, and without a segment that send takes for a step
    up (a [..] between backslashes). *)
Definition dotFree (dir : list string) : Prop :=
  Forall (λ seg, isDotfile seg = false ∧ isUpPath seg = false) dir.

(** The file that an upload writes: the generated name in the directory
    [uploads] of the working directory. *)
Definition uploadTarget (cfg : Config) (env : UploadEnv) : list string :=
  cwd cfg ++ ["uploads"; storageFilename (nowFilename env) (random env)].

(** The record of a stored part. *)
Definition uploadedRecord (p : Multer.Part) (env : UploadEnv) : PhotoData :=
  let name := storageFilename (nowFilename env) (random env) in
  {| id := nowId env;
     filename := name;
     originalName := Multer.part_originalname p;
     path := "uploads/" +:+ name;
     size := N.of_nat (length (Multer.part_content p));
     mimetype := Multer.part_mimetype p;
     timestamp := nowTimestamp env |}.

Definition uploadedView (env : UploadEnv) : UploadedView :=
  let name := storageFilename (nowFilename env) (random env) in
  {| uploaded_id := nowId env;
     uploaded_filename := name;
     uploaded_url := photoUrl name;
     uploaded_timestamp := nowTimestamp env |}.

(** A part that multer stores: an image below the size limit whose write
    succeeds. *)
Definition accepted (p : Multer.Part) (env : UploadEnv) : Prop :=
  Js.startsWith (Multer.part_mimetype p) "image/" = true
  ∧ (N.of_nat (length (Multer.part_content p)) < Multer.fileSize upload)%N
  ∧ write env = Fs.WriteOk.

(** The file of a record, as the delete handler resolves it. *)
Definition recordTarget (cfg : Config) (photo : PhotoData) : Path.t :=
  Path.resolve (cwd cfg) (path photo).

(** What the delete handler does to the disk and to the console. *)
Definition afterUnlink (cfg : Config) (st : State) (photo : PhotoData)
    (outcome : Fs.UnlinkOutcome)
  : gmap (list string) (list byte) * list string :=
  if Fs.existsSync (disk st) (recordTarget cfg photo) then
    match outcome with
    | Fs.UnlinkOk => (Fs.unlink (disk st) (recordTarget cfg photo), console st)
    | Fs.UnlinkError msg =>
        (disk st, console st ++ ["Error deleting file: " +:+ msg])
    end
  else (disk st, console st).

(** The photos of a list response. *)
Definition listedViews (r : Response) : list PhotoView :=
  match body r with
  | PhotoList _ _ views => views
  | _ => []
  end.

(** The id of the claim C10, in the words of the specification: the
    decimal integer at the start of the string (after white space and a
    sign, the longest run of decimal digits). *)
Definition decimalPrefix (s : string) : option Z :=
  let '(negative, s1) := Js.stripSign (Js.trimStart s) in
  Js.applySign negative <$> Js.digitsPrefix 10 None s1.

(** The request that uploads a part. *)
Definition uploadRequest (u : Multer.Part * UploadEnv) : Request :=
  PostUpload (Some u.1) u.2.

(** The clock reading and the random number that the name generator of
    each upload of a run reads. *)
Definition nameSeeds (reqs : list Request) : list (Z * N) :=
  omap (λ req, match req with
               | PostUpload _ env => Some (nowFilename env, random env)
               | _ => None
               end) reqs.

Definition seedName (seed : Z * N) : string := storageFilename seed.1 seed.2.

(** ** Example data *)

(** The server started in its own directory. *)
Definition backendConfig : Config :=
  {| dirname := ["srv"; "app"; "backend"]; cwd := ["srv"; "app"; "backend"] |}.

(** The server started from the directory above, as with
    [node backend/index.js]. *)
Definition parentConfig : Config :=
  {| dirname := ["srv"; "app"; "backend"]; cwd := ["srv"; "app"] |}.

Definition jpegPart : Multer.Part :=
  Multer.mkPart "photo.jpg" "image/jpeg" ["255"; "216"; "255"; "224"]%byte.

Definition textPart : Multer.Part :=
  Multer.mkPart "notes.txt" "text/plain" ["104"; "105"]%byte.

(** A part of one byte more than 10 MiB. *)
Definition oversizeContent : list byte :=
  replicate (N.to_nat (10 * 1024 * 1024 + 1)) "000"%byte.

Definition oversizeJpegPart : Multer.Part :=
  Multer.mkPart "huge.jpg" "image/jpeg" oversizeContent.

Definition oversizeTextPart : Multer.Part :=
  Multer.mkPart "huge.txt" "text/plain" oversizeContent.

Definition uploadAt (now : Z) (rnd : N) : UploadEnv :=
  {| nowFilename := now; random := rnd; write := Fs.WriteOk;
     nowId := now; nowTimestamp := now |}.

Definition diskFullAt (now : Z) (rnd : N) : UploadEnv :=
  {| nowFilename := now; random := rnd;
     write := Fs.WriteError "ENOSPC: no space left on device, write"
                            (Some ["255"; "216"]%byte);
     nowId := now; nowTimestamp := now |}.

(** An upload when the directory [uploads] is missing. *)
Definition noDirectoryAt (now : Z) (rnd : N) : UploadEnv :=
  {| nowFilename := now; random := rnd;
     write := Fs.WriteError "ENOENT: no such file or directory, open" None;
     nowId := now; nowTimestamp := now |}.

(** One record, uploaded at 1700000000000. *)
Definition onePhoto : State :=
  run backendConfig (initial ∅)
      [PostUpload (Some jpegPart) (uploadAt 1700000000000 42)].

(** Two records that were uploaded in the same millisecond. *)
Definition twoPhotosSameId : State :=
  run backendConfig (initial ∅)
      [PostUpload (Some jpegPart) (uploadAt 1700000000000 42);
       PostUpload (Some jpegPart) (uploadAt 1700000000000 43)].

(** Three uploads, one millisecond apart. *)
Definition threeUploads : list (Multer.Part * UploadEnv) :=
  [(jpegPart, uploadAt 1700000000000 42);
   (jpegPart, uploadAt 1700000000001 7);
   (jpegPart, uploadAt 1700000000002 99)].

(** Two accepted uploads one millisecond apart and, between them, the
    upload of a text file, which the filter rejects. *)
Definition rejectedBetween : list Request :=
  [PostUpload (Some jpegPart) (uploadAt 1700000000005 1);
   PostUpload (Some textPart) (uploadAt 1700000000005 2);
   PostUpload (Some jpegPart) (uploadAt 1700000000006 3)].

(** Two uploads, the clock being set back by a millisecond between
    them. *)
Definition clockStepsBack : list (Multer.Part * UploadEnv) :=
  [(jpegPart, uploadAt 1700000000002 42);
   (jpegPart, uploadAt 1700000000001 7)].

(** ** The routes that report on the server *)

(** [process.env.NODE_ENV || 'development']: the variable when it is set
    and not empty. *)
Definition environment (nodeEnv : option string) : string :=
  match nodeEnv with
  | Some e => if decide (e = "") then "development" else e
  | None => "development"
  end.

(** The [data] object of GET /api/info. *)
Record Info := mkInfo {
  info_server : string;
  info_version : string;
  info_environment : string;
  info_uploadsDirectory : string;
  info_totalPhotos : nat;
  info_maxFileSize : string
}.

Record InfoResponse := mkInfoResponse {
  info_status : Z;
  info_success : bool;
  info_data : Info
}.

(** GET /api/info *)
Definition getInfo (cfg : Config) (st : State) (nodeEnv : option string)
  : InfoResponse * State :=
  ({| info_status := 200;
      info_success := true;
      info_data :=
        {| info_server := "Camera App Backend";
           info_version := "1.0.0";
           info_environment := environment nodeEnv;
           info_uploadsDirectory := "/" +:+ Path.render (uploadsDir cfg);
           info_totalPhotos := length (photos st);
           info_maxFileSize := "10MB" |} |}, st).

(** ** Vocabulary of the runs *)

(** A record as the upload handler builds it: a name from the name
    generator, stored under [uploads/]. *)
Definition generated (photo : PhotoData) : Prop :=
  ∃ now rnd, filename photo = storageFilename now rnd
             ∧ path photo = "uploads/" +:+ filename photo.

(** The file of a record with a generated name, and of a name seed. *)
Definition recordFile (cfg : Config) (photo : PhotoData) : list string :=
  cwd cfg ++ ["uploads"; filename photo].

Definition seedFile (cfg : Config) (seed : Z * N) : list string :=
  cwd cfg ++ ["uploads"; seedName seed].

(** The file of a record is on disk, with the size that the record has. *)
Definition onDisk (cfg : Config) (d : gmap (list string) (list byte))
    (photo : PhotoData) : Prop :=
  ∃ content, d !! recordFile cfg photo = Some content
             ∧ size photo = N.of_nat (length content).

(** What one request can do to the state, as far as the properties of
    runs need it. *)
Inductive step (cfg : Config) (st : State) : Request → State → Prop :=
| step_same req : step cfg st req st
| step_stored p env :
    accepted p env →
    step cfg st (PostUpload (Some p) env)
         {| photos := photos st ++ [uploadedRecord p env];
            disk := <[uploadTarget cfg env := Multer.part_content p]> (disk st);
            console := console st |}
| step_residue part env partial :
    step cfg st (PostUpload part env)
         {| photos := photos st;
            disk := <[uploadTarget cfg env := partial]> (disk st);
            console := console st |}
| step_removed part env :
    step cfg st (PostUpload part env)
         {| photos := photos st;
            disk := delete (uploadTarget cfg env) (disk st);
            console := console st |}
| step_deleted idParam outcome l1 photo l2 :
    photos st = l1 ++ photo :: l2 →
    step cfg st (DeletePhoto idParam outcome)
         {| photos := l1 ++ l2;
            disk := (afterUnlink cfg st photo outcome).1;
            console := (afterUnlink cfg st photo outcome).2 |}.

(** The requests of a run with their responses. *)
Fixpoint transcript (cfg : Config) (st : State) (reqs : list Request)
  : list (Request * Response) :=
  match reqs with
  | [] => []
  | req :: reqs' =>
      (req, (handle cfg st req).1) :: transcript cfg (handle cfg st req).2 reqs'
  end.

Definition uploadSucceeded (x : Request * Response) : bool :=
  match x.1 with
  | PostUpload _ _ => status x.2 =? 200
  | _ => false
  end.

Definition deleteSucceeded (x : Request * Response) : bool :=
  match x.1 with
  | DeletePhoto _ _ => status x.2 =? 200
  | _ => false
  end.

Definition count {A} (f : A → bool) (l : list A) : nat :=
  length (List.filter f l).

(** The records are generated ones with distinct file names, each with
    its file on disk. *)
Definition consistent (cfg : Config) (st : State) : Prop :=
  Forall generated (photos st)
  ∧ NoDup (filename <$> photos st)
  ∧ Forall (onDisk cfg (disk st)) (photos st).

(** The number of photos that a list response announces. *)
Definition listedCount (r : Response) : nat :=
  match body r with
  | PhotoList _ n _ => n
  | _ => 0%nat
  end.

(** ** Paths that leave the uploads directory *)

(** A segment of a normalized path: not empty, neither [.] nor [..],
    without a separator. *)
Definition isSegment (s : string) : Prop :=
  s ≠ "" ∧ s ≠ "." ∧ s ≠ ".." ∧ "/"%char ∉ list_ascii_of_string s.

(** The relative path that climbs from the directory [dir] to the root and
    descends to [q]. *)
Definition climb (dir q : list string) : string :=
  Path.render (replicate (length dir) ".." ++ q).

(** The characters that [encodeURIComponent] leaves as they are: letters,
    digits and [-_.!~*'()]. *)
Definition isUnreserved (c : ascii) : bool :=
  let code := N_of_ascii c in
  ((65 <=? code) && (code <=? 90))%N
  || ((97 <=? code) && (code <=? 122))%N
  || ((48 <=? code) && (code <=? 57))%N
  || existsb (Ascii.eqb c) (list_ascii_of_string "-_.!~*'()").

(** The hexadecimal digit, in upper case, of a number below 16. *)
Definition hexDigit (n : N) : ascii :=
  if (n <? 10)%N then ascii_of_N (48 + n) else ascii_of_N (55 + n).

(** [encodeURIComponent] on the bytes of a string: every byte that is not
    left as it is becomes [%XX]. *)
Fixpoint escapeSegment (s : string) : string :=
  match s with
  | EmptyString => EmptyString
  | String c s' =>
      if isUnreserved c then String c (escapeSegment s')
      else String "%" (String (hexDigit (N_of_ascii c / 16))
                         (String (hexDigit (N_of_ascii c mod 16))
                            (escapeSegment s')))
  end.

(** A name made of ASCII characters other than NUL: its bytes are
    well-formed UTF-8, and a file can have it. *)
Definition asciiName (s : string) : Prop :=
  Forall (λ c, (0 < N_of_ascii c < 128)%N) (list_ascii_of_string s).

(** * The client: its api module and the component Camera

    The client reaches the backend at [http://localhost:3001], the port that
    the backend listens on unless the variable PORT says otherwise. *)

(** The id of a photo on the client: the string of a temporary id, or the
    number that the server gave. *)
Inductive Id :=
| IdString (s : string)
| IdNumber (n : Z).

#[global] Instance Id_eq_dec : EqDecision Id.
Proof. solve_decision. Defined.

(** An id inside a template literal. *)
Definition idToString (x : Id) : string :=
  match x with
  | IdString s => s
  | IdNumber n => Js.toString n
  end.

(** What axios makes of a response: the promise resolves with a response
    whose status is 2xx and rejects otherwise; [None] is a request without
    a response (no connection, or none within the timeout). *)
Definition resolves (response : option Response) : option Response :=
  match response with
  | Some r => if decide (200 ≤ status r < 300) then Some r else None
  | None => None
  end.

Module Api.

Inductive Method := GET | POST | DELETE.

(** A call of the axios instance [api]: the method, the full url, and the
    part [photo] of the form data that is sent, if any. *)
Record Call := mkCall {
  method : Method;
  url : string;
  formData : option Multer.Part
}.

Definition API_BASE_URL : string := "http://localhost:3001/api".

Fixpoint dropLeadingSlashes (s : string) : string :=
  match s with
  | String "/" s' => dropLeadingSlashes s'
  | _ => s
  end.

(** [s.replace(/\/?\/$/, '')]: [s] without one or two separators at its
    end. *)
Definition dropTrailingSlash (s : string) : string :=
  match reverse (list_ascii_of_string s) with
  | "/" :: "/" :: r => string_of_list_ascii (reverse r)
  | "/" :: r => string_of_list_ascii (reverse r)
  | _ => s
  end%char.

(** [combineURLs] of axios, which joins [baseURL] and the url of a call
    that is not absolute (none of the urls below is: all start with one
    separator). *)
Definition combineURLs (baseURL relativeURL : string) : string :=
  if decide (relativeURL = "") then baseURL
  else dropTrailingSlash baseURL +:+ "/" +:+ dropLeadingSlashes relativeURL.

Definition call (m : Method) (relativeURL : string)
    (form : option Multer.Part) : Call :=
  {| method := m;
     url := combineURLs API_BASE_URL relativeURL;
     formData := form |}.

Definition healthCheck : Call := call GET "/health" None.

Definition getPhotos : Call := call GET "/photos" None.

(** A blob: its media type and its bytes. *)
Record Blob := mkBlob { blob_type : string; blob_bytes : list byte }.

(** [uploadPhoto(photoBlob, filename = 'photo.jpg')].  [None]: the call
    throws, which [FormData.append] does for a [photoBlob] that is no blob
    (here [null]).  The form is sent as multipart/form-data with the
    boundary that the browser chooses; a blob without a type is sent as
    application/octet-stream. *)
Definition uploadPhoto (photoBlob : option Blob) (filename : option string)
  : option Call :=
  match photoBlob with
  | Some blob =>
      Some (call POST "/upload"
              (Some {| Multer.part_originalname := default "photo.jpg" filename;
                       Multer.part_mimetype :=
                         if decide (blob_type blob = "")
                         then "application/octet-stream"
                         else blob_type blob;
                       Multer.part_content := blob_bytes blob |}))
  | None => None
  end.

Definition deletePhoto (id : Id) : Call :=
  call DELETE ("/photos/" +:+ idToString id) None.

Definition getServerInfo : Call := call GET "/info" None.

End Api.

(** The path that a request to [url] asks the backend for: the url
    without the origin of the backend.  (The urls of the client consist of
    characters that a url keeps as they are.) *)
Definition backendPath (url : string) : option string :=
  Js.dropPrefix "http://localhost:3001" url.

Module Camera.

(** An element of the state [photos].  A field that an object does not
    have is [None].  The timestamp is the instant that the code renders
    with [toLocaleString]. *)
Record Photo := mkPhoto {
  photo_id : Id;
  photo_data : option string;
  photo_timestamp : Z;
  photo_isUploading : option bool;
  photo_serverId : option Z;
  photo_url : option string;
  photo_uploadFailed : option bool;
  photo_filename : option string
}.

(** The state of the component, without the camera stream. *)
Record Ui := mkUi {
  ui_photos : list Photo;
  ui_error : string;
  ui_uploading : bool;
  ui_serverStatus : string
}.

Definition mounted : Ui :=
  {| ui_photos := []; ui_error := ""; ui_uploading := false;
     ui_serverStatus := "checking" |}.

Definition setPhotos (ui : Ui) (f : list Photo → list Photo) : Ui :=
  {| ui_photos := f (ui_photos ui);
     ui_error := ui_error ui;
     ui_uploading := ui_uploading ui;
     ui_serverStatus := ui_serverStatus ui |}.

Definition setError (ui : Ui) (message : string) : Ui :=
  {| ui_photos := ui_photos ui;
     ui_error := message;
     ui_uploading := ui_uploading ui;
     ui_serverStatus := ui_serverStatus ui |}.

Definition setUploading (ui : Ui) (b : bool) : Ui :=
  {| ui_photos := ui_photos ui;
     ui_error := ui_error ui;
     ui_uploading := b;
     ui_serverStatus := ui_serverStatus ui |}.

Definition setServerStatus (ui : Ui) (s : string) : Ui :=
  {| ui_photos := ui_photos ui;
     ui_error := ui_error ui;
     ui_uploading := ui_uploading ui;
     ui_serverStatus := s |}.

(** [checkServerStatus], which runs when the component is mounted;
    [resolved]: the promise of the health call resolves. *)
Definition checkServerStatus (ui : Ui) (resolved : bool) : Ui :=
  if resolved then setServerStatus ui "online"
  else setError (setServerStatus ui "offline")
         "Backend server is offline. Please make sure the backend is running on port 3001.".

(** [startCamera], as far as the state above goes; [failure] is the
    message of the error of [getUserMedia], if it fails. *)
Definition startCamera (ui : Ui) (failure : option string) : Ui :=
  match failure with
  | None => setError ui ""
  | Some message => setError ui ("Cannot access camera: " +:+ message)
  end.

(** The temporary id of a photo taken at [now]. *)
Definition tempId (now : Z) : Id := IdString ("temp-" +:+ Js.toString now).

Definition tempPhoto (now : Z) (photoDataUrl : string) (stamp : Z) : Photo :=
  {| photo_id := tempId now;
     photo_data := Some photoDataUrl;
     photo_timestamp := stamp;
     photo_isUploading := Some true;
     photo_serverId := None;
     photo_url := None;
     photo_uploadFailed := None;
     photo_filename := None |}.

(** [takePhoto], up to its call of [canvas.toBlob]: the photo of the
    canvas is put in front of the list under a temporary id.  [now] is
    [Date.now()], [photoDataUrl] the data url of the canvas, [stamp] the
    instant of [new Date()].  (The video and the canvas belong to every
    rendering of the component, so that the handler finds both.) *)
Definition takePhoto (ui : Ui) (now : Z) (photoDataUrl : string) (stamp : Z)
  : Ui :=
  setPhotos ui (λ prev, tempPhoto now photoDataUrl stamp :: prev).

(** The call that [uploadPhotoToServer] makes; [now] is [Date.now()]. *)
Definition uploadCall (blob : option Api.Blob) (now : Z) : option Api.Call :=
  Api.uploadPhoto blob (Some ("photo-" +:+ Js.toString now +:+ ".jpg")).

(** [response.data.photo] of the response to an upload, when the promise
    resolves. *)
Definition uploadedPhoto (response : option Response) : option UploadedView :=
  match resolves response with
  | Some r => match body r with
              | Uploaded _ _ photo => Some photo
              | _ => None
              end
  | None => None
  end.

Definition markUploaded (tempId : Id) (photo : UploadedView) (p : Photo)
  : Photo :=
  if decide (photo_id p = tempId) then
    {| photo_id := IdNumber (uploaded_id photo);
       photo_data := photo_data p;
       photo_timestamp := photo_timestamp p;
       photo_isUploading := Some false;
       photo_serverId := Some (uploaded_id photo);
       photo_url := Some (uploaded_url photo);
       photo_uploadFailed := photo_uploadFailed p;
       photo_filename := photo_filename p |}
  else p.

Definition markFailed (tempId : Id) (p : Photo) : Photo :=
  if decide (photo_id p = tempId) then
    {| photo_id := photo_id p;
       photo_data := photo_data p;
       photo_timestamp := photo_timestamp p;
       photo_isUploading := Some false;
       photo_serverId := photo_serverId p;
       photo_url := photo_url p;
       photo_uploadFailed := Some true;
       photo_filename := photo_filename p |}
  else p.

(** [uploadPhotoToServer(blob, tempId)] after its call has settled:
    [photo] is [response.data.photo], or [None] when the call threw or its
    promise rejected.  (Before that, the handler has set [uploading].) *)
Definition uploadPhotoToServer (ui : Ui) (tempId : Id)
    (photo : option UploadedView) : Ui :=
  match photo with
  | Some photo =>
      setUploading (setPhotos ui (fmap (markUploaded tempId photo))) false
  | None =>
      setUploading
        (setPhotos (setError ui "Failed to upload photo to server")
                   (fmap (markFailed tempId)))
        false
  end.

(** [response.data.photos] of the response to the list call, when the
    promise resolves. *)
Definition listedPhotos (response : option Response)
  : option (list PhotoView) :=
  match resolves response with
  | Some r => match body r with
              | PhotoList _ _ views => Some views
              | _ => None
              end
  | None => None
  end.

Definition serverPhoto (photo : PhotoView) : Photo :=
  {| photo_id := IdNumber (view_id photo);
     photo_data := None;
     photo_timestamp := view_timestamp photo;
     photo_isUploading := None;
     photo_serverId := Some (view_id photo);
     photo_url := Some ("http://localhost:3001" +:+ view_url photo);
     photo_uploadFailed := None;
     photo_filename := Some (view_filename photo) |}.

(** [loadPhotosFromServer]: the list of the server replaces the list of
    the client; a failure is only logged. *)
Definition loadPhotosFromServer (ui : Ui) (views : option (list PhotoView))
  : Ui :=
  match views with
  | Some views => setPhotos ui (λ _, serverPhoto <$> views)
  | None => ui
  end.

(** [photos.find(p => p.id === photoId)?.serverId], as a condition: the
    first photo with that id has a [serverId] other than 0. *)
Definition hasServerId (photos : list Photo) (photoId : Id) : bool :=
  match list_find (λ p, photo_id p = photoId) photos with
  | Some (_, p) => match photo_serverId p with
                   | Some n => negb (n =? 0)
                   | None => false
                   end
  | None => false
  end.

(** The call that [deletePhoto(photoId)] makes, if it makes one. *)
Definition deleteCall (ui : Ui) (photoId : Id) : option Api.Call :=
  if hasServerId (ui_photos ui) photoId then Some (Api.deletePhoto photoId)
  else None.

(** [deletePhoto(photoId)]; [response] is the response to its call, when
    it makes one.  The handler looks for the photo in the list of the
    rendering that it belongs to, taken to be the current list. *)
Definition deletePhoto (ui : Ui) (photoId : Id) (response : option Response)
  : Ui :=
  let removed := setPhotos ui (filter (λ photo, photo_id photo ≠ photoId)) in
  if hasServerId (ui_photos ui) photoId then
    match resolves response with
    | Some _ => removed
    | None => setError ui "Failed to delete photo"
    end
  else removed.

Definition clearPhotos (ui : Ui) : Ui := setPhotos ui (λ _, []).

(** What happens to the component, and a run of it. *)
Inductive Event :=
| HealthSettled (resolved : bool)
| StartCamera (failure : option string)
| TakePhoto (now : Z) (photoDataUrl : string) (stamp : Z)
| UploadSettled (tempId : Id) (photo : option UploadedView)
| LoadSettled (views : option (list PhotoView))
| DeletePhoto (photoId : Id) (response : option Response)
| ClearPhotos
| CloseError.

Definition handle (ui : Ui) (ev : Event) : Ui :=
  match ev with
  | HealthSettled resolved => checkServerStatus ui resolved
  | StartCamera failure => startCamera ui failure
  | TakePhoto now photoDataUrl stamp => takePhoto ui now photoDataUrl stamp
  | UploadSettled tempId photo => uploadPhotoToServer ui tempId photo
  | LoadSettled views => loadPhotosFromServer ui views
  | DeletePhoto photoId response => deletePhoto ui photoId response
  | ClearPhotos => clearPhotos ui
  | CloseError => setError ui ""
  end.

Definition run (ui : Ui) (evs : list Event) : Ui := foldl handle ui evs.

End Camera.

(** The two kinds of photo in the list of the client: a temporary one has
    a string as its id, no [serverId], and its data url; one that the
    server knows has the number [serverId] as its id, and a url. *)
Definition wellFormed (p : Camera.Photo) : Prop :=
  match Camera.photo_id p, Camera.photo_serverId p with
  | IdString _, None => is_Some (Camera.photo_data p)
  | IdNumber n, Some m => n = m ∧ is_Some (Camera.photo_url p)
  | _, _ => False
  end.

(** ** Example data of the runs and of the client *)

(** The requests of the instances below: two uploads, one that fails when
    the disk is full, a fetch, the list, and the delete of the first
    upload. *)
Definition mixedRun : list Request :=
  [PostUpload (Some jpegPart) (uploadAt 1700000000000 42);
   PostUpload (Some jpegPart) (diskFullAt 1700000000001 7);
   GetPhoto "../index.js";
   PostUpload (Some jpegPart) (uploadAt 1700000000002 99);
   GetPhotos;
   DeletePhoto "1700000000000" Fs.UnlinkOk].

Definition sourceDisk : gmap (list string) (list byte) :=
  {[ ["srv"; "app"; "backend"; "index.js"]
     := ["105"; "109"; "112"; "111"; "114"; "116"]%byte ]}.

(** A disk with a file [.env], a directory [.cache] and a file [..\x] in
    the uploads directory. *)
Definition dotDisk : gmap (list string) (list byte) :=
  {[ ["srv"; "app"; "backend"; "uploads"; ".env"]
       := ["107"; "101"; "121"]%byte;
     ["srv"; "app"; "backend"; "uploads"; ".cache"; ""] := [];
     ["srv"; "app"; "backend"; "uploads"; "..\x"] := ["120"]%byte ]}.

(** A disk with a directory [album] in the uploads directory. *)
Definition albumDisk : gmap (list string) (list byte) :=
  {[ ["srv"; "app"; "backend"; "uploads"; "album"; ""] := [] ]}.

(** A disk with a file of the system. *)
Definition systemDisk : gmap (list string) (list byte) :=
  {[ ["etc"; "passwd"] := ["114"; "111"; "111"; "116"]%byte ]}.

(** The blob of a canvas. *)
Definition canvasBlob : Api.Blob :=
  Api.mkBlob "image/jpeg" ["255"; "216"; "255"; "224"]%byte.

(** The client after it has loaded the list of [onePhoto]. *)
Definition loadedOnePhoto : Camera.Ui :=
  Camera.loadPhotosFromServer Camera.mounted
    (Camera.listedPhotos (Some (getPhotos onePhoto).1)).

(** * Lemmas and theorems *)

(** ** Strings as lists of characters *)

Section Strings.

Lemma chars_app (a b : string) :
  list_ascii_of_string (a +:+ b)
  = list_ascii_of_string a ++ list_ascii_of_string b.
Proof. induction a as [|c a IH]; simpl; [done|]. by rewrite IH. Qed.

Lemma chars_inj (a b : string) :
  list_ascii_of_string a = list_ascii_of_string b → a = b.
Proof.
  intros H.
  rewrite <- (string_of_list_ascii_of_string a),
          <- (string_of_list_ascii_of_string b).
  by rewrite H.
Qed.

Lemma append_empty_r (s : string) : s +:+ "" = s.
Proof.
  induction s as [|c s IH]; [done|].
  change (String c (s +:+ "") = String c s). by rewrite IH.
Qed.

Lemma append_inv_tail (a b t : string) : a +:+ t = b +:+ t → a = b.
Proof.
  intros H. apply chars_inj.
  apply (f_equal list_ascii_of_string) in H.
  rewrite !chars_app in H. by apply app_inv_tail in H.
Qed.

(** A list is cut in one way at the last occurrence of an element. *)
Lemma cut_at_last {A} (x : A) (l1 l2 m1 m2 : list A) :
  x ∉ m1 → x ∉ m2 → l1 ++ x :: m1 = l2 ++ x :: m2 → l1 = l2 ∧ m1 = m2.
Proof.
  intros H1 H2. revert l2.
  induction l1 as [|a l1 IH]; intros l2 E.
  - destruct l2 as [|b l2]; simpl in E.
    + by injection E as ->.
    + injection E as _ Em. exfalso. apply H1. rewrite Em.
      apply elem_of_app. right. by left.
  - destruct l2 as [|b l2]; simpl in E.
    + injection E as _ Em. exfalso. apply H2. rewrite <- Em.
      apply elem_of_app. right. by left.
    + injection E as -> E. destruct (IH l2 E) as [-> ->]; done.
Qed.

Lemma append_cut_at_last (c : ascii) (a1 a2 b1 b2 : string) :
  c ∉ list_ascii_of_string b1 → c ∉ list_ascii_of_string b2 →
  a1 +:+ String c b1 = a2 +:+ String c b2 → a1 = a2 ∧ b1 = b2.
Proof.
  intros H1 H2 E.
  apply (f_equal list_ascii_of_string) in E.
  rewrite !chars_app in E. simpl in E.
  apply cut_at_last in E as [Ea Eb]; [|done..].
  split; by apply chars_inj.
Qed.

End Strings.

(** ** Decimal numerals *)

Section Numerals.

Lemma pretty_N_char_digit (d : N) : isDigit (pretty_N_char d) = true.
Proof. unfold pretty_N_char. by repeat case_match. Qed.

Lemma pretty_N_go_digits (x : N) (s : string) :
  Forall (λ c, isDigit c = true) (list_ascii_of_string s) →
  Forall (λ c, isDigit c = true) (list_ascii_of_string (pretty_N_go x s)).
Proof.
  revert s. induction (N.lt_wf_0 x) as [x _ IH]; intros s Hs.
  destruct (decide (x = 0%N)) as [->|].
  - by rewrite pretty_N_go_0.
  - rewrite pretty_N_go_step by lia.
    apply IH; [apply N.div_lt; lia|].
    simpl. constructor; [apply pretty_N_char_digit | done].
Qed.

Lemma pretty_N_digits (x : N) :
  Forall (λ c, isDigit c = true) (list_ascii_of_string (pretty x)).
Proof.
  unfold pretty, pretty_N. case_decide.
  - simpl. by repeat constructor.
  - apply pretty_N_go_digits. simpl. constructor.
Qed.

Lemma toString_of_N (n : N) : Js.toString (Z.of_N n) = pretty n.
Proof. by destruct n. Qed.

Lemma toString_of_N_digits (n : N) :
  Forall (λ c, isDigit c = true)
         (list_ascii_of_string (Js.toString (Z.of_N n))).
Proof. rewrite toString_of_N. apply pretty_N_digits. Qed.

Lemma toString_numeral (x : Z) :
  Forall (λ c, isNumeralChar c = true)
         (list_ascii_of_string (Js.toString x)).
Proof.
  assert (∀ n : N, Forall (λ c, isNumeralChar c = true)
                          (list_ascii_of_string (pretty n))) as HN.
  { intros n. eapply Forall_impl; [apply pretty_N_digits|].
    intros c Hc. unfold isNumeralChar. by rewrite Hc. }
  destruct x as [|p|p]; unfold Js.toString, pretty, pretty_Z.
  - simpl. by repeat constructor.
  - apply (HN (N.pos p)).
  - rewrite chars_app. simpl. constructor; [done|]. apply (HN (N.pos p)).
Qed.

Lemma pretty_N_go_nonempty (x : N) (s : string) :
  s ≠ "" → pretty_N_go x s ≠ "".
Proof.
  revert s. induction (N.lt_wf_0 x) as [x _ IH]; intros s Hs.
  destruct (decide (x = 0%N)) as [->|].
  - by rewrite pretty_N_go_0.
  - rewrite pretty_N_go_step by lia. apply IH; [apply N.div_lt; lia|done].
Qed.

Lemma pretty_N_nonempty (n : N) : pretty n ≠ "".
Proof.
  unfold pretty, pretty_N. case_decide; [done|].
  rewrite pretty_N_go_step by lia. by apply pretty_N_go_nonempty.
Qed.

Lemma toString_nonempty (x : Z) : Js.toString x ≠ "".
Proof.
  destruct x as [|p|p]; unfold Js.toString, pretty, pretty_Z; [done|..].
  - apply (pretty_N_nonempty (N.pos p)).
  - done.
Qed.

(** *** [parseInt] reads back what [toString] prints *)

Lemma append_assoc (a b c : string) : (a +:+ b) +:+ c = a +:+ b +:+ c.
Proof.
  apply chars_inj. by rewrite !chars_app, app_assoc.
Qed.

Lemma pretty_N_go_app (x : N) (s : string) :
  pretty_N_go x s = pretty_N_go x "" +:+ s.
Proof.
  revert s. induction (N.lt_wf_0 x) as [x _ IH]; intros s.
  destruct (decide (x = 0%N)) as [->|].
  - by rewrite !pretty_N_go_0.
  - rewrite !(pretty_N_go_step x) by lia.
    assert (x `div` 10 < x)%N as Hlt by (apply N.div_lt; lia).
    rewrite (IH _ Hlt (String _ s)), (IH _ Hlt (String _ "")).
    by rewrite append_assoc.
Qed.

Lemma radixDigit_pretty_N_char (d : N) :
  (d < 10)%N → Js.radixDigit 10 (pretty_N_char d) = Some d.
Proof.
  intros H.
  assert (d = 0 ∨ d = 1 ∨ d = 2 ∨ d = 3 ∨ d = 4 ∨ d = 5 ∨ d = 6 ∨ d = 7
          ∨ d = 8 ∨ d = 9)%N as Hd by lia.
  repeat (destruct Hd as [->|Hd]; [reflexivity|]). by subst d.
Qed.

Lemma isDigit_radixDigit (c : ascii) :
  isDigit c = true → is_Some (Js.radixDigit 10 c).
Proof.
  unfold isDigit, Js.radixDigit, Js.digitValue. intros H. simpl in H.
  rewrite H. apply andb_true_iff in H as [Hlo Hhi].
  apply N.leb_le in Hlo, Hhi.
  assert ((N_of_ascii c - 48 <? 10)%N = true) as ->
    by (apply N.ltb_lt; lia).
  by eexists.
Qed.

Lemma digitsPrefix_snoc (R : N) (acc : option N) (a : string) (c : ascii)
    (d : N) :
  Forall (λ b, is_Some (Js.radixDigit R b)) (list_ascii_of_string a) →
  Js.radixDigit R c = Some d →
  Js.digitsPrefix R acc (a +:+ String c "")
  = Some (default 0 (Js.digitsPrefix R acc a) * R + d)%N.
Proof.
  intros Ha Hc. revert acc.
  induction a as [|b a IH]; intros acc.
  - simpl. by rewrite Hc.
  - simpl in Ha. inversion Ha as [|? ? [e He] Ha']; subst.
    change (String b a +:+ String c "") with (String b (a +:+ String c "")).
    simpl. rewrite He. by apply IH.
Qed.

Lemma digitsPrefix_pretty_N_go (x : N) :
  Js.digitsPrefix 10 None (pretty_N_go x "")
  = if decide (x = 0%N) then None else Some x.
Proof.
  induction (N.lt_wf_0 x) as [x _ IH].
  case_decide as Hx; [by subst|].
  rewrite pretty_N_go_step, pretty_N_go_app by lia.
  rewrite (digitsPrefix_snoc 10 None _ _ (x `mod` 10)%N).
  - rewrite IH by (apply N.div_lt; lia). f_equal.
    pose proof (N.div_mod x 10 ltac:(done)) as Hdm.
    case_decide as H0; simpl.
    + rewrite H0 in Hdm. lia.
    + lia.
  - eapply Forall_impl; [by apply pretty_N_go_digits|].
    apply isDigit_radixDigit.
  - apply radixDigit_pretty_N_char. by apply N.mod_lt.
Qed.

Lemma digitsPrefix_pretty (n : N) :
  Js.digitsPrefix 10 None (pretty n) = Some n.
Proof.
  unfold pretty, pretty_N. case_decide as Hn; [by subst|].
  by rewrite digitsPrefix_pretty_N_go, decide_False.
Qed.

(** A numeral without a sign starts with no white space, no sign and no
    hexadecimal prefix. *)
Lemma digits_head (s : string) :
  s ≠ "" →
  Forall (λ c, isDigit c = true) (list_ascii_of_string s) →
  Js.trimStart s = s ∧ Js.stripSign s = (false, s)
  ∧ Js.stripHexPrefix s = None.
Proof.
  intros Hs Hd. destruct s as [|c s]; [done|]. clear Hs.
  simpl in Hd. inversion Hd as [|? ? Hc Hrest]; subst. clear Hd.
  destruct c as [[] [] [] [] [] [] [] []];
    vm_compute in Hc; try discriminate Hc;
    (split; [reflexivity|]); (split; [reflexivity|]); try reflexivity.
  destruct s as [|c s]; [reflexivity|].
  inversion Hrest as [|? ? Hc' _]; subst.
  destruct c as [[] [] [] [] [] [] [] []];
    vm_compute in Hc'; try discriminate Hc'; reflexivity.
Qed.

Lemma parseInt_pretty (negative : bool) (n : N) :
  Js.parseInt ((if negative then "-" else "") +:+ pretty n)
  = Some (Js.applySign negative n).
Proof.
  destruct (digits_head (pretty n) (pretty_N_nonempty n) (pretty_N_digits n))
    as (Htrim & Hsign & Hhex).
  unfold Js.parseInt. destruct negative.
  - change ("-" +:+ pretty n) with (String "-" (pretty n)).
    change (Js.trimStart (String "-" (pretty n))) with (String "-" (pretty n)).
    cbn [Js.stripSign]. by rewrite Hhex, digitsPrefix_pretty.
  - change ("" +:+ pretty n) with (pretty n).
    by rewrite Htrim, Hsign, Hhex, digitsPrefix_pretty.
Qed.

(** Every id is the number that [parseInt] reads from its decimal
    numeral. *)
Lemma parseInt_toString (z : Z) : Js.parseInt (Js.toString z) = Some z.
Proof.
  destruct z as [|p|p].
  - reflexivity.
  - apply (parseInt_pretty false (N.pos p)).
  - apply (parseInt_pretty true (N.pos p)).
Qed.

End Numerals.

(** ** File names and paths *)

(** Closes a goal [c ∉ l] for a literal list [l] without [c]. *)
Ltac not_in_literal :=
  let H := fresh in
  intros H;
  repeat (apply elem_of_cons in H as [H|H]; [discriminate H|]);
  by apply elem_of_nil in H.

Section Names.

Lemma split_no_slash (s : string) :
  "/"%char ∉ list_ascii_of_string s → Path.split s = [s].
Proof.
  induction s as [|c s IH]; intros H; [done|].
  simpl in *. apply not_elem_of_cons in H as [Hc Hs].
  destruct (Ascii.eqb_spec c "/") as [->|_]; [done|].
  by rewrite IH.
Qed.

Lemma endsWithSlash_no_slash (s : string) :
  "/"%char ∉ list_ascii_of_string s → Path.endsWithSlash s = false.
Proof.
  induction s as [|c s IH]; intros H; [done|].
  simpl in *. apply not_elem_of_cons in H as [Hc Hs].
  destruct s as [|c' s]; [|by apply IH].
  by destruct (Ascii.eqb_spec c "/").
Qed.

Lemma endsWithSlash_app (a s : string) :
  s ≠ "" → Path.endsWithSlash (a +:+ s) = Path.endsWithSlash s.
Proof.
  intros Hs. induction a as [|c a IH]; [done|].
  change (String c a +:+ s) with (String c (a +:+ s)).
  simpl. destruct (a +:+ s) eqn:E; [|done].
  destruct a; [|done]. by simpl in E.
Qed.

Lemma plain_not_dots (s : string) : plain s → s ≠ "." ∧ s ≠ "..".
Proof. intros (_ & Hdot & _). split; by intros ->. Qed.

Lemma pushSegment_plain (absolute : bool) (dir : list string) (s : string) :
  plain s → Path.pushSegment absolute dir s = dir ++ [s].
Proof.
  intros H. pose proof (plain_not_dots s H) as [H1 H2].
  destruct H as (H0 & _ & _). unfold Path.pushSegment.
  destruct (decide (s = "" ∨ s = ".")) as [[?|?]|_]; [done..|].
  by destruct (decide (s = "..")).
Qed.

Lemma plain_uploads : plain "uploads".
Proof. repeat split; [done|]. simpl. not_in_literal. Qed.

Lemma joinDir_plain (dir : list string) (s : string) :
  plain s → Path.joinDir dir s = Path.mk (dir ++ [s]) false.
Proof.
  intros H. pose proof H as (_ & _ & Hs). unfold Path.joinDir.
  rewrite endsWithSlash_no_slash, split_no_slash by done.
  unfold Path.normalizeSegments. simpl. by rewrite pushSegment_plain.
Qed.

Lemma split_uploads (s : string) :
  Path.split ("uploads/" +:+ "/" +:+ s) = "uploads" :: "" :: Path.split s.
Proof.
  change ("uploads/" +:+ "/" +:+ s)
    with (String "u" (String "p" (String "l" (String "o" (String "a"
         (String "d" (String "s" (String "/" (String "/" s))))))))).
  cbn [Path.split Ascii.eqb Bool.eqb].
  destruct (Path.split s) eqn:E; [|done].
  by destruct s; simpl in E; repeat case_match.
Qed.

Lemma join_uploads_plain (s : string) :
  plain s → Path.join "uploads/" s = "uploads/" +:+ s.
Proof.
  intros H. pose proof H as (H0 & _ & Hs).
  destruct s as [|c s]; [done|]. unfold Path.join, Path.normalize.
  change (Js.startsWith ("uploads/" +:+ "/" +:+ String c s) "/") with false.
  rewrite split_uploads, split_no_slash by done.
  rewrite (endsWithSlash_app "uploads/" ("/" +:+ String c s)) by done.
  rewrite (endsWithSlash_app "/" (String c s)) by done.
  rewrite endsWithSlash_no_slash by done.
  unfold Path.normalizeSegments. cbn [foldl].
  change (Path.pushSegment false (Path.pushSegment false [] "uploads") "")
    with ["uploads"].
  rewrite pushSegment_plain by done.
  cbn [app Path.render].
  change ("uploads" +:+ "/" +:+ String c s)
    with (String "u" ("ploads/" +:+ String c s)).
  cbv iota beta. change ("" +:+ ?x) with x.
  by rewrite append_empty_r.
Qed.

Lemma resolve_uploads_plain (dir : list string) (s : string) :
  plain s →
  Path.resolve dir ("uploads/" +:+ s) = Path.mk (dir ++ ["uploads"; s]) false.
Proof.
  intros H. pose proof H as (H0 & _ & Hs). unfold Path.resolve.
  change (Js.startsWith ("uploads/" +:+ s) "/") with false.
  cbv iota. unfold Path.joinDir. f_equal.
  - change ("uploads/" +:+ s)
      with (String "u" (String "p" (String "l" (String "o" (String "a"
           (String "d" (String "s" (String "/" s)))))))).
    cbn [Path.split Ascii.eqb Bool.eqb].
    rewrite split_no_slash by done.
    unfold Path.normalizeSegments. cbn [foldl].
    rewrite (pushSegment_plain true dir "uploads"), pushSegment_plain;
      [by rewrite <- app_assoc|done|apply plain_uploads].
  - rewrite endsWithSlash_app by done. by apply endsWithSlash_no_slash.
Qed.

Lemma numeral_char_not_slash (c : ascii) :
  isNumeralChar c = true → c ≠ "/"%char.
Proof. by intros H ->. Qed.

Lemma storageFilename_chars (now : Z) (rnd : N) :
  list_ascii_of_string (storageFilename now rnd)
  = list_ascii_of_string "photo-"
    ++ list_ascii_of_string (Js.toString now)
    ++ "-"%char :: list_ascii_of_string (Js.toString (Z.of_N rnd))
    ++ list_ascii_of_string ".jpg".
Proof.
  unfold storageFilename. rewrite !chars_app. simpl.
  by rewrite <- !app_assoc.
Qed.

(** The names that the storage generates are plain. *)
Lemma storageFilename_plain (now : Z) (rnd : N) :
  plain (storageFilename now rnd).
Proof.
  repeat split; try done.
  rewrite storageFilename_chars.
  rewrite !elem_of_app, elem_of_cons, elem_of_app.
  intros [H|[H|[H|[H|H]]]]; try done.
  - revert H. simpl. not_in_literal.
  - pose proof (toString_numeral now) as Hn.
    rewrite Forall_forall in Hn. by apply Hn in H.
  - pose proof (toString_numeral (Z.of_N rnd)) as Hn.
    rewrite Forall_forall in Hn. by apply Hn in H.
  - revert H. simpl. not_in_literal.
Qed.

(** The generated name determines the clock reading and the random
    number it was built from. *)
Lemma storageFilename_inj (now now' : Z) (rnd rnd' : N) :
  storageFilename now rnd = storageFilename now' rnd' →
  now = now' ∧ rnd = rnd'.
Proof.
  unfold storageFilename. intros E.
  apply (inj (String.app "photo-")) in E.
  apply append_inv_tail in E.
  apply append_cut_at_last in E as [Enow Ernd].
  - apply (inj pretty) in Enow. rewrite !toString_of_N in Ernd.
    apply (inj pretty) in Ernd. done.
  - intros H. pose proof (toString_of_N_digits rnd) as Hd.
    rewrite Forall_forall in Hd. by apply Hd in H.
  - intros H. pose proof (toString_of_N_digits rnd') as Hd.
    rewrite Forall_forall in Hd. by apply Hd in H.
Qed.

End Names.

(** ** POST /api/upload, case by case *)

Section Upload.

Context (cfg : Config).

Lemma upload_resolve (env : UploadEnv) :
  Path.resolve (cwd cfg)
    (Path.join "uploads/" (storageFilename (nowFilename env) (random env)))
  = Path.mk (uploadTarget cfg env) false.
Proof.
  rewrite join_uploads_plain by apply storageFilename_plain.
  apply resolve_uploads_plain, storageFilename_plain.
Qed.

Lemma state_eta (st : State) :
  {| photos := photos st; disk := disk st; console := console st |} = st.
Proof. by destruct st. Qed.

Lemma postUpload_no_file (st : State) (env : UploadEnv) :
  postUpload cfg st None env
  = ({| status := 400; body := Message false "No file uploaded" |}, st).
Proof. done. Qed.

Lemma postUpload_filtered (st : State) (p : Multer.Part) (env : UploadEnv) :
  Js.startsWith (Multer.part_mimetype p) "image/" = false →
  postUpload cfg st (Some p) env
  = ({| status := 500;
        body := Message false "Only image files are allowed!" |}, st).
Proof.
  intros H. unfold postUpload, Multer.single. cbn [Multer.fileFilter upload].
  unfold fileFilter. rewrite H. cbn. by rewrite state_eta.
Qed.

Lemma postUpload_too_large (st : State) (p : Multer.Part) (env : UploadEnv) :
  Js.startsWith (Multer.part_mimetype p) "image/" = true →
  write env = Fs.WriteOk →
  (Multer.fileSize upload ≤ N.of_nat (length (Multer.part_content p)))%N →
  postUpload cfg st (Some p) env
  = ({| status := 400;
        body := Message false "File too large. Maximum size is 10MB." |},
     {| photos := photos st;
        disk := delete (uploadTarget cfg env) (disk st);
        console := console st |}).
Proof.
  intros Himg Hw Hsize. unfold postUpload, Multer.single.
  cbn [Multer.fileFilter Multer.destination upload].
  unfold fileFilter. rewrite Himg, upload_resolve, Hw.
  apply N.leb_le in Hsize. rewrite Hsize.
  unfold Fs.unlink, Fs.writeFile. cbn [Path.segments].
  by rewrite delete_insert_eq.
Qed.

Lemma postUpload_write_error (st : State) (p : Multer.Part)
    (env : UploadEnv) (msg : string) (residue : option (list byte)) :
  Js.startsWith (Multer.part_mimetype p) "image/" = true →
  write env = Fs.WriteError msg residue →
  postUpload cfg st (Some p) env
  = ({| status := 500; body := Message false msg |},
     {| photos := photos st;
        disk := match residue with
                | Some partial => <[uploadTarget cfg env := partial]> (disk st)
                | None => disk st
                end;
        console := console st |}).
Proof.
  intros Himg Hw. unfold postUpload, Multer.single.
  cbn [Multer.fileFilter Multer.destination upload].
  unfold fileFilter. rewrite Himg, upload_resolve, Hw.
  by destruct residue.
Qed.

Lemma postUpload_accepted (st : State) (p : Multer.Part) (env : UploadEnv) :
  accepted p env →
  postUpload cfg st (Some p) env
  = (json (Uploaded true "Photo uploaded successfully" (uploadedView env)),
     {| photos := photos st ++ [uploadedRecord p env];
        disk := <[uploadTarget cfg env := Multer.part_content p]> (disk st);
        console := console st |}).
Proof.
  intros (Himg & Hsize & Hw). unfold postUpload, Multer.single.
  cbn [Multer.fileFilter Multer.destination upload].
  unfold fileFilter. rewrite Himg, upload_resolve, Hw.
  apply N.leb_gt in Hsize. rewrite Hsize.
  unfold uploadHandler, photoDataOf, uploadedRecord, uploadedView.
  cbn [Multer.filename Multer.originalname Multer.path Multer.size
       Multer.mimetype id filename timestamp photos disk console
       Fs.writeFile Path.segments].
  by rewrite join_uploads_plain by apply storageFilename_plain.
Qed.

End Upload.

(** ** DELETE /api/photos/:id *)

Section Delete.

Context (cfg : Config).

Lemma findIndex_first {A} (f : A → bool) (l1 l2 : list A) (x : A) :
  Forall (λ y, f y = false) l1 → f x = true →
  Js.findIndex f (l1 ++ x :: l2) = Some (length l1).
Proof.
  intros H1 Hx. induction H1 as [|y l1 Hy _ IH]; simpl.
  - by rewrite Hx.
  - by rewrite Hy, IH.
Qed.

Lemma findIndex_None {A} (f : A → bool) (l : list A) :
  Js.findIndex f l = None ↔ Forall (λ y, f y = false) l.
Proof.
  induction l as [|y l IH]; simpl.
  - split; [constructor|done].
  - destruct (f y) eqn:Hy.
    + split; [done|]. intros H. inversion H; congruence.
    + destruct (Js.findIndex f l); simpl.
      * split; [done|]. intros H. inversion H as [|? ? _ Hl]; subst.
        by apply IH in Hl.
      * split; [|done]. intros _. constructor; [done|]. by apply IH.
Qed.

(** A list with an element that satisfies [f] splits at the first one. *)
Lemma first_match {A} (f : A → bool) (l : list A) :
  Exists (λ y, f y = true) l →
  ∃ l1 x l2, l = l1 ++ x :: l2 ∧ Forall (λ y, f y = false) l1 ∧ f x = true.
Proof.
  induction l as [|y l IH]; intros H; [by inversion H|].
  destruct (f y) eqn:Hy.
  - by exists [], y, l.
  - inversion H as [|? ? Hl]; subst; [congruence|].
    destruct (IH Hl) as (l1 & x & l2 & -> & H1 & Hx).
    exists (y :: l1), x, l2. repeat split; [|done]. by constructor.
Qed.

Lemma deletePhoto_first (st : State) (idParam : string)
    (outcome : Fs.UnlinkOutcome) (l1 l2 : list PhotoData)
    (photo : PhotoData) :
  photos st = l1 ++ photo :: l2 →
  Forall (λ y, idIs (Js.parseInt idParam) y = false) l1 →
  idIs (Js.parseInt idParam) photo = true →
  deletePhoto cfg st idParam outcome
  = (json (Message true "Photo deleted successfully"),
     {| photos := l1 ++ l2;
        disk := (afterUnlink cfg st photo outcome).1;
        console := (afterUnlink cfg st photo outcome).2 |}).
Proof.
  intros Hl H1 Hx. unfold deletePhoto. rewrite Hl.
  rewrite findIndex_first by done.
  rewrite list_lookup_middle by done.
  unfold Js.splice1. rewrite delete_middle.
  unfold afterUnlink, recordTarget.
  destruct (Fs.existsSync _ _); [|done]. by destruct outcome.
Qed.

Lemma deletePhoto_absent (st : State) (idParam : string)
    (outcome : Fs.UnlinkOutcome) :
  Forall (λ y, idIs (Js.parseInt idParam) y = false) (photos st) →
  deletePhoto cfg st idParam outcome
  = ({| status := 404; body := Message false "Photo not found" |}, st).
Proof.
  intros H. unfold deletePhoto. apply findIndex_None in H. by rewrite H.
Qed.

Lemma idIs_true (n : Z) (photo : PhotoData) :
  idIs (Some n) photo = true ↔ id photo = n.
Proof. apply Z.eqb_eq. Qed.

Lemma idIs_false (n : Z) (photo : PhotoData) :
  idIs (Some n) photo = false ↔ id photo ≠ n.
Proof. apply Z.eqb_neq. Qed.

Lemma no_match_not_elem (n : Z) (l : list PhotoData) :
  Forall (λ y, idIs (Some n) y = false) l ↔ n ∉ (id <$> l).
Proof.
  rewrite Forall_forall. split.
  - intros H (y & -> & Hy)%list_elem_of_fmap.
    apply H in Hy. by apply idIs_false in Hy.
  - intros H y Hy. apply idIs_false. intros <-.
    apply H. by apply list_elem_of_fmap_2.
Qed.

End Delete.

(** ** Example data, continued *)

Lemma oversizeContent_length :
  (Multer.fileSize upload
   < N.of_nat (length oversizeContent))%N.
Proof.
  unfold oversizeContent. rewrite length_replicate, N2Nat.id. done.
Qed.

(** ** The media type filter (C2) *)

Lemma prefix_app_l (a b s : string) :
  String.prefix (a +:+ b) s = true → String.prefix a s = true.
Proof.
  revert s. induction a as [|c a IH]; intros s H.
  - by destruct s.
  - destruct s as [|d s]; [done|].
    change (String c a +:+ b) with (String c (a +:+ b)) in H.
    simpl in *. destruct (ascii_dec c d); [|done]. by apply IH.
Qed.

Lemma not_image_filtered (mime : string) :
  Js.startsWith mime "image" = false → Js.startsWith mime "image/" = false.
Proof.
  unfold Js.startsWith. intros H.
  destruct (String.prefix "image/" mime) eqn:E; [|done].
  apply (prefix_app_l "image" "/") in E. congruence.
Qed.

(** C2, as the code has it: an upload whose declared media type does not
    begin with "image" is rejected with the message of the file filter and
    the status 500 of the generic error handler; the state of the server is
    the same as before: no record is appended and no file is created. *)
Theorem non_image_upload_rejected (cfg : Config) (st : State)
    (p : Multer.Part) (env : UploadEnv) :
  Js.startsWith (Multer.part_mimetype p) "image" = false →
  postUpload cfg st (Some p) env
  = ({| status := 500; body := Message false "Only image files are allowed!" |},
     st).
Proof. intros H. by apply postUpload_filtered, not_image_filtered. Qed.

(** An instance: a part of type text/plain. *)
Lemma non_image_upload_rejected_witness :
  Js.startsWith (Multer.part_mimetype textPart) "image" = false
  ∧ postUpload backendConfig (initial ∅) (Some textPart) (uploadAt 1700000000000 42)
    = ({| status := 500;
          body := Message false "Only image files are allowed!" |},
       initial ∅).
Proof.
  split; [reflexivity|].
  apply (non_image_upload_rejected backendConfig (initial ∅) textPart).
  reflexivity.
Defined.

(** C2 as stated fails: the status of the rejection is 500, which is no
    client-error status. *)
Lemma non_image_upload_status_is_500 :
  Js.startsWith (Multer.part_mimetype textPart) "image" = false
  ∧ ¬ (400 ≤ status (postUpload backendConfig (initial ∅) (Some textPart)
                                (uploadAt 1700000000000 42)).1 < 500).
Proof.
  split; [reflexivity|].
  rewrite postUpload_filtered by reflexivity. simpl. lia.
Qed.

(** ** The size limit (C8) *)

(** C8, as the code has it: an upload of an image part longer than 10 MiB
    whose write stream does not fail is answered with status 400 and the
    message about the 10MB maximum; no record is appended, and afterwards
    no file stands at the path that the upload was written to, every other
    path being as before. *)
Theorem oversize_image_upload_rejected (cfg : Config) (st : State)
    (p : Multer.Part) (env : UploadEnv) :
  Js.startsWith (Multer.part_mimetype p) "image/" = true →
  write env = Fs.WriteOk →
  (10 * 1024 * 1024 < N.of_nat (length (Multer.part_content p)))%N →
  postUpload cfg st (Some p) env
  = ({| status := 400;
        body := Message false "File too large. Maximum size is 10MB." |},
     {| photos := photos st;
        disk := delete (uploadTarget cfg env) (disk st);
        console := console st |}).
Proof.
  intros Himg Hw Hsize. apply postUpload_too_large; [done..|].
  cbn [Multer.fileSize upload]. lia.
Qed.

(** An instance: a JPEG of one byte more than 10 MiB. *)
Lemma oversize_image_upload_rejected_witness :
  Js.startsWith (Multer.part_mimetype oversizeJpegPart) "image/" = true
  ∧ write (uploadAt 1700000000000 42) = Fs.WriteOk
  ∧ (10 * 1024 * 1024
     < N.of_nat (length (Multer.part_content oversizeJpegPart)))%N
  ∧ postUpload backendConfig (initial ∅) (Some oversizeJpegPart)
               (uploadAt 1700000000000 42)
    = ({| status := 400;
          body := Message false "File too large. Maximum size is 10MB." |},
       {| photos := [];
          disk := delete (uploadTarget backendConfig (uploadAt 1700000000000 42)) ∅;
          console := [] |}).
Proof.
  split; [reflexivity|]. split; [reflexivity|].
  split; [apply oversizeContent_length|].
  apply (oversize_image_upload_rejected backendConfig (initial ∅)
           oversizeJpegPart (uploadAt 1700000000000 42)).
  - reflexivity.
  - reflexivity.
  - apply oversizeContent_length.
Defined.

(** C8 as stated fails on an oversize part that is no image: the file
    filter rejects it first, with status 500 and its own message.  It also
    fails on an oversize image when the write stream breaks (here the
    directory [uploads] is missing): the answer is the error of the stream,
    with status 500. *)
Lemma oversize_upload_is_500 :
  (10 * 1024 * 1024
   < N.of_nat (length (Multer.part_content oversizeTextPart)))%N
  ∧ (postUpload backendConfig (initial ∅) (Some oversizeTextPart)
                (uploadAt 1700000000000 42)).1
    = {| status := 500; body := Message false "Only image files are allowed!" |}
  ∧ (10 * 1024 * 1024
     < N.of_nat (length (Multer.part_content oversizeJpegPart)))%N
  ∧ (postUpload backendConfig (initial ∅) (Some oversizeJpegPart)
                (noDirectoryAt 1700000000000 42)).1
    = {| status := 500;
         body := Message false "ENOENT: no such file or directory, open" |}.
Proof.
  split; [apply oversizeContent_length|].
  split; [by rewrite postUpload_filtered|].
  split; [apply oversizeContent_length|].
  by rewrite (postUpload_write_error _ _ _ _
                "ENOENT: no such file or directory, open" None).
Qed.

(** ** The write and the append (C3) *)

(** Every upload ends in one of five ways. *)
Lemma postUpload_cases (part : option Multer.Part) (env : UploadEnv) :
  part = None
  ∨ (∃ p, part = Some p
          ∧ Js.startsWith (Multer.part_mimetype p) "image/" = false)
  ∨ (∃ p msg residue, part = Some p
          ∧ Js.startsWith (Multer.part_mimetype p) "image/" = true
          ∧ write env = Fs.WriteError msg residue)
  ∨ (∃ p, part = Some p
          ∧ Js.startsWith (Multer.part_mimetype p) "image/" = true
          ∧ write env = Fs.WriteOk
          ∧ (Multer.fileSize upload
             ≤ N.of_nat (length (Multer.part_content p)))%N)
  ∨ (∃ p, part = Some p ∧ accepted p env).
Proof.
  destruct part as [p|]; [|by left]. right.
  destruct (Js.startsWith (Multer.part_mimetype p) "image/") eqn:Himg;
    [|left; by exists p].
  right.
  destruct (write env) as [|msg residue] eqn:Hw;
    [|left; by exists p, msg, residue].
  right.
  destruct (decide (Multer.fileSize upload
                    ≤ N.of_nat (length (Multer.part_content p)))%N)
    as [Hbig|Hfit]; [left; by exists p|].
  right. apply N.nle_gt in Hfit. by exists p.
Qed.

(** C3, as the code has it: an upload that succeeds writes the file at the
    generated path and appends exactly its record; an upload that fails
    appends no record and changes the disk at the generated path at most. *)
Theorem upload_appends_iff_stored (cfg : Config) (st : State)
    (part : option Multer.Part) (env : UploadEnv) :
  let r := postUpload cfg st part env in
  (status r.1 = 200
   ∧ ∃ p, part = Some p
          ∧ photos r.2 = photos st ++ [uploadedRecord p env]
          ∧ disk r.2 = <[uploadTarget cfg env := Multer.part_content p]> (disk st))
  ∨ (status r.1 ≠ 200
     ∧ photos r.2 = photos st
     ∧ ∀ q, q ≠ uploadTarget cfg env → disk r.2 !! q = disk st !! q).
Proof.
  intros r. subst r.
  destruct (postUpload_cases part env)
    as [->|[(p & -> & Himg)|[(p & msg & residue & -> & Himg & Hw)
       |[(p & -> & Himg & Hw & Hbig)|(p & -> & Hacc)]]]].
  - right. rewrite postUpload_no_file. by repeat split.
  - right. rewrite postUpload_filtered by done. by repeat split.
  - right. rewrite (postUpload_write_error cfg st p env msg residue) by done.
    simpl. repeat split; [done|]. intros q Hq.
    destruct residue; [|done]. by rewrite lookup_insert_ne.
  - right. rewrite postUpload_too_large by done. simpl.
    repeat split; [done|]. intros q Hq. by rewrite lookup_delete_ne.
  - left. rewrite postUpload_accepted by done. simpl.
    split; [done|]. by exists p.
Qed.

(** C3 as stated fails: a write that breaks off when the disk is full
    leaves the bytes written so far in the uploads directory, with no
    record in the index, and the fetch route serves them. *)
Lemma failed_upload_leaves_file :
  let env := diskFullAt 1700000000000 42 in
  let r := postUpload backendConfig (initial ∅) (Some jpegPart) env in
  status r.1 = 500
  ∧ photos r.2 = []
  ∧ disk r.2 !! uploadTarget backendConfig env = Some ["255"; "216"]%byte
  ∧ (getPhoto backendConfig r.2 "photo-1700000000000-42.jpg").1
    = {| status := 200; body := SentFile ["255"; "216"]%byte |}.
Proof. vm_compute. done. Qed.

(** ** GET /api/photos/:filename (C1) *)

Lemma uploadsDir_segments (cfg : Config) :
  uploadsDir cfg = dirname cfg ++ ["uploads"].
Proof.
  unfold uploadsDir. by rewrite joinDir_plain by apply plain_uploads.
Qed.

Lemma dotFree_existsb (dir : list string) :
  dotFree dir → existsb isDotfile dir = false ∧ existsb isUpPath dir = false.
Proof.
  induction 1 as [|seg dir [Hdot Hup] _ [IHdot IHup]]; [done|]. simpl.
  by rewrite Hdot, Hup, IHdot, IHup.
Qed.

Lemma upPath_no_separator (s : string) :
  Forall (λ c, isSeparator c = false) (list_ascii_of_string s) →
  upPath false s = false.
Proof.
  induction s as [|c s IH]; intros Hs; [done|].
  simpl in Hs. apply Forall_cons in Hs as [Hc Hs].
  cbn [upPath]. rewrite Hc. by apply IH.
Qed.

(** A segment without a separator or a backslash goes up only when it is
    [..]. *)
Lemma isUpPath_no_separator (s : string) :
  Forall (λ c, isSeparator c = false) (list_ascii_of_string s) →
  s ≠ ".." → isUpPath s = false.
Proof.
  intros Hs Hne. destruct s as [|c s]; [done|].
  simpl in Hs. apply Forall_cons in Hs as [Hc Hs].
  unfold isUpPath. cbn [upPath]. rewrite Hc, upPath_no_separator by done.
  rewrite orb_false_r. cbn [andb].
  destruct (Ascii.eqb_spec c ".") as [->|]; [|done]. cbn [andb].
  destruct s as [|c1 s]; [done|].
  destruct (Ascii.eqb_spec c1 ".") as [->|Hc1].
  - destruct s as [|c2 s]; [done|].
    simpl in Hs. apply Forall_cons in Hs as [_ Hs].
    by apply Forall_cons in Hs as [Hc2 _].
  - destruct c1 as [[] [] [] [] [] [] [] []]; try done.
Qed.

Lemma numeral_char_no_separator (c : ascii) :
  isNumeralChar c = true → isSeparator c = false.
Proof.
  intros H. unfold isSeparator.
  destruct (Ascii.eqb_spec c "/") as [->|_]; [done|].
  by destruct (Ascii.eqb_spec c "\") as [->|_].
Qed.

(** The names that the storage generates do not go up. *)
Lemma storageFilename_not_up (now : Z) (rnd : N) :
  isUpPath (storageFilename now rnd) = false.
Proof.
  apply isUpPath_no_separator; [|done].
  rewrite storageFilename_chars.
  rewrite !Forall_app, Forall_cons, Forall_app.
  repeat split;
    try (eapply Forall_impl; [apply toString_numeral|];
         apply numeral_char_no_separator);
    try done; simpl; by repeat constructor.
Qed.

Lemma plain_not_dotfile (s : string) : plain s → isDotfile s = false.
Proof.
  intros (_ & Hdot & _). destruct s as [|c s]; [done|].
  unfold Js.startsWith in Hdot. simpl in Hdot.
  destruct (ascii_dec "." c) as [<-|Hc]; [by destruct s|].
  unfold isDotfile. destruct c as [[] [] [] [] [] [] [] []]; try done.
Qed.

Lemma dotFree_target (cfg : Config) (name : string) :
  dotFree (dirname cfg) → plain name → isUpPath name = false →
  dotFree (uploadsDir cfg ++ [name]).
Proof.
  intros Hdir Hname Hup. rewrite uploadsDir_segments.
  unfold dotFree. rewrite !Forall_app. repeat split; [done|..].
  - by constructor.
  - constructor; [|done]. split; [by apply plain_not_dotfile|done].
Qed.

(** The fetch route on a plain name that does not go up: the file of that
    name in the uploads directory; the final handler for a directory of
    that name; or 404. *)
Lemma getPhoto_plain (cfg : Config) (st : State) (name : string) :
  plain name →
  isUpPath name = false →
  dotFree (dirname cfg) →
  getPhoto cfg st name
  = (match disk st !! (uploadsDir cfg ++ [name]) with
     | Some content => {| status := 200; body := SentFile content |}
     | None =>
         if Fs.isDirectory (disk st) (Path.mk (uploadsDir cfg ++ [name]) false)
         then notFoundHandler
         else {| status := 404; body := Message false "Photo not found" |}
     end, st).
Proof.
  intros H Hup Hdir. unfold getPhoto, sendFile, Fs.existsSync, Fs.readFile.
  rewrite joinDir_plain by done. cbn [Path.trailing Path.segments].
  destruct (dotFree_existsb _ (dotFree_target cfg name Hdir H Hup))
    as [-> ->].
  destruct (disk st !! (uploadsDir cfg ++ [name])) eqn:E.
  - rewrite bool_decide_eq_true_2; [done|by eexists].
  - rewrite bool_decide_eq_false_2 by (by intros [? ?]). cbn [orb].
    by destruct (Fs.isDirectory _ _).
Qed.

(** The fetch route on a generated name whose file is there. *)
Lemma getPhoto_generated (cfg : Config) (st : State) (now : Z) (rnd : N)
    (content : list byte) :
  dotFree (dirname cfg) →
  disk st !! (uploadsDir cfg ++ [storageFilename now rnd]) = Some content →
  getPhoto cfg st (storageFilename now rnd)
  = ({| status := 200; body := SentFile content |}, st).
Proof.
  intros Hdir Hfile.
  rewrite getPhoto_plain;
    [|apply storageFilename_plain|apply storageFilename_not_up|done].
  by rewrite Hfile.
Qed.

Lemma backendConfig_dotFree : dotFree (dirname backendConfig).
Proof. by repeat constructor. Qed.

(** C1, as the code has it: for a plain file name (one segment, no
    separator, no leading dot) that send does not take for a step up (no
    [..] between backslashes), the fetch route looks at what has that name
    directly inside the uploads directory and nowhere else: it sends the
    bytes of the file of that name when there is one; for a directory of
    that name the request falls through to the final handler, which
    answers 404 "Route not found"; when there is nothing of that name it
    answers 404 "Photo not found".  It changes nothing, and its answer is
    the same whatever the index holds.  (The path of the server's
    directory is taken to have no segment that [sendFile] would refuse.) *)
Theorem getPhoto_plain_name (cfg : Config) (st : State) (name : string) :
  plain name →
  isUpPath name = false →
  dotFree (dirname cfg) →
  let r := getPhoto cfg st name in
  let file := uploadsDir cfg ++ [name] in
  r.2 = st
  ∧ (∀ content,
       disk st !! file = Some content →
       r.1 = {| status := 200; body := SentFile content |})
  ∧ (disk st !! file = None →
     Fs.isDirectory (disk st) (Path.mk file false) = true →
     r.1 = {| status := 404; body := RouteNotFound false "Route not found" |})
  ∧ (disk st !! file = None →
     Fs.isDirectory (disk st) (Path.mk file false) = false →
     r.1 = {| status := 404; body := Message false "Photo not found" |})
  ∧ (∀ st', disk st' = disk st → (getPhoto cfg st' name).1 = r.1).
Proof.
  intros H Hup Hdir r file. subst r file. rewrite getPhoto_plain by done.
  split; [done|]. split; [|split; [|split]].
  - by intros content ->.
  - by intros -> ->.
  - by intros -> ->.
  - intros st' Hdisk. rewrite getPhoto_plain by done. by rewrite Hdisk.
Qed.

(** An instance: the name of the one photo of [onePhoto], with its file
    on disk and without, and the name of a directory. *)
Lemma getPhoto_plain_name_witness :
  plain "photo-1700000000000-42.jpg"
  ∧ isUpPath "photo-1700000000000-42.jpg" = false
  ∧ dotFree (dirname backendConfig)
  ∧ getPhoto backendConfig onePhoto "photo-1700000000000-42.jpg"
    = ({| status := 200; body := SentFile (Multer.part_content jpegPart) |},
       onePhoto)
  ∧ (getPhoto backendConfig (initial ∅) "photo-1700000000000-42.jpg").1
    = {| status := 404; body := Message false "Photo not found" |}
  ∧ plain "album"
  ∧ (getPhoto backendConfig (initial albumDisk) "album").1
    = {| status := 404; body := RouteNotFound false "Route not found" |}.
Proof.
  assert (plain "photo-1700000000000-42.jpg") as H
    by apply (storageFilename_plain 1700000000000 42).
  assert (plain "album") as Halbum
    by (repeat split; [done|]; simpl; not_in_literal).
  split; [exact H|]. split; [reflexivity|].
  split; [exact backendConfig_dotFree|].
  destruct (getPhoto_plain_name backendConfig onePhoto
              "photo-1700000000000-42.jpg" H eq_refl backendConfig_dotFree)
    as (Hst & Hfound & _ & _ & _).
  destruct (getPhoto_plain_name backendConfig (initial ∅)
              "photo-1700000000000-42.jpg" H eq_refl backendConfig_dotFree)
    as (_ & _ & _ & Hnone & _).
  destruct (getPhoto_plain_name backendConfig (initial albumDisk)
              "album" Halbum eq_refl backendConfig_dotFree)
    as (_ & _ & Hdir & _ & _).
  split; [|split; [|split]].
  - rewrite (surjective_pairing (getPhoto _ _ _)), Hst.
    by rewrite (Hfound (Multer.part_content jpegPart) eq_refl).
  - exact (Hnone eq_refl eq_refl).
  - exact Halbum.
  - exact (Hdir eq_refl eq_refl).
Defined.

(** C1 as stated fails: the request GET /api/photos/..%2Findex.js carries
    a file name with a separator and a parent segment.  The route does not
    reject it; with no photo in the index it sends the file index.js of the
    directory above the uploads directory. *)
Lemma getPhoto_serves_file_outside_uploads :
  let source := ["105"; "109"; "112"; "111"; "114"; "116"]%byte in
  let st := initial {[ ["srv"; "app"; "backend"; "index.js"] := source ]} in
  photoRouteParam "/api/photos/..%2Findex.js" = Some "../index.js"
  ∧ Path.split "../index.js" = [".."; "index.js"]
  ∧ photos st = []
  ∧ uploadsDir backendConfig = ["srv"; "app"; "backend"; "uploads"]
  ∧ Path.segments (Path.joinDir (uploadsDir backendConfig) "../index.js")
    = ["srv"; "app"; "backend"; "index.js"]
  ∧ getPhoto backendConfig st "../index.js"
    = ({| status := 200; body := SentFile source |}, st).
Proof. vm_compute. done. Qed.

(** ** Upload, then fetch (C4) *)

Lemma dropPrefix_app (a s : string) : Js.dropPrefix a (a +:+ s) = Some s.
Proof.
  induction a as [|c a IH]; [by destruct s|].
  change (String c a +:+ s) with (String c (a +:+ s)).
  simpl. by rewrite Ascii.eqb_refl.
Qed.

Lemma decodeURIComponent_no_escape (s : string) :
  "%"%char ∉ list_ascii_of_string s → Js.decodeURIComponent s = Some s.
Proof.
  induction s as [|c s IH]; intros H; [done|].
  simpl in H. apply not_elem_of_cons in H as [Hc Hs].
  specialize (IH Hs).
  assert (Js.decodeURIComponent (String c s)
          = String c <$> Js.decodeURIComponent s) as ->.
  { destruct c as [[] [] [] [] [] [] [] []]; try reflexivity. done. }
  by rewrite IH.
Qed.

Lemma storageFilename_no_escape (now : Z) (rnd : N) :
  "%"%char ∉ list_ascii_of_string (storageFilename now rnd).
Proof.
  rewrite storageFilename_chars.
  rewrite !elem_of_app, elem_of_cons, elem_of_app.
  intros [H|[H|[H|[H|H]]]]; try done.
  - revert H. simpl. not_in_literal.
  - pose proof (toString_numeral now) as Hn.
    rewrite Forall_forall in Hn. by apply Hn in H.
  - pose proof (toString_numeral (Z.of_N rnd)) as Hn.
    rewrite Forall_forall in Hn. by apply Hn in H.
  - revert H. simpl. not_in_literal.
Qed.

Lemma storageFilename_char (now : Z) (rnd : N) (c : ascii) :
  c ∈ list_ascii_of_string (storageFilename now rnd) →
  isNumeralChar c = true ∨ c ∈ list_ascii_of_string "photo-.jpg".
Proof.
  rewrite storageFilename_chars.
  rewrite !elem_of_app, elem_of_cons, elem_of_app.
  intros [H|[H|[H|[H|H]]]].
  - right.
    change (c ∈ list_ascii_of_string "photo-"
                ++ list_ascii_of_string ".jpg").
    apply elem_of_app. by left.
  - left. pose proof (toString_numeral now) as Hn.
    rewrite Forall_forall in Hn. by apply Hn.
  - right. subst c.
    change ("-"%char
            ∈ list_ascii_of_string "photo" ++ list_ascii_of_string "-.jpg").
    apply elem_of_app. right. simpl. by left.
  - left. pose proof (toString_numeral (Z.of_N rnd)) as Hn.
    rewrite Forall_forall in Hn. by apply Hn.
  - right.
    change (c ∈ list_ascii_of_string "photo-"
                ++ list_ascii_of_string ".jpg").
    apply elem_of_app. by right.
Qed.

Lemma pathname_id (s : string) :
  "?"%char ∉ list_ascii_of_string s →
  "#"%char ∉ list_ascii_of_string s →
  pathname s = s.
Proof.
  induction s as [|c s IH]; [done|].
  simpl. intros [Hc Hs]%not_elem_of_cons [Hc' Hs']%not_elem_of_cons.
  destruct (Ascii.eqb_spec c "?") as [->|_]; [done|].
  destruct (Ascii.eqb_spec c "#") as [->|_]; [done|].
  simpl. by rewrite IH.
Qed.

Lemma dropLastSeparator_id (s : string) :
  "/"%char ∉ list_ascii_of_string s → dropLastSeparator s = s.
Proof.
  induction s as [|c s IH]; [done|].
  simpl. intros [Hc Hs]%not_elem_of_cons.
  destruct s as [|c' s]; [|by rewrite IH].
  by destruct (Ascii.eqb_spec c "/") as [->|_].
Qed.

(** The route on a url made of the prefix and one segment that has no
    separator and starts no query string or fragment. *)
Lemma photoRouteParam_one_segment (s : string) :
  s ≠ "" →
  "/"%char ∉ list_ascii_of_string s →
  "?"%char ∉ list_ascii_of_string s →
  "#"%char ∉ list_ascii_of_string s →
  photoRouteParam ("/api/photos/" +:+ s) = Js.decodeURIComponent s.
Proof.
  intros H0 Hs Hq Hf. unfold photoRouteParam.
  assert (dropRoutePrefix "/api/photos/" (pathname ("/api/photos/" +:+ s))
          = Some (pathname s)) as -> by reflexivity.
  rewrite pathname_id by done. cbn zeta.
  rewrite dropLastSeparator_id by done.
  by rewrite decide_True.
Qed.

(** The url of a generated name leads back to the name. *)
Lemma photoRouteParam_photoUrl (now : Z) (rnd : N) :
  photoRouteParam (photoUrl (storageFilename now rnd))
  = Some (storageFilename now rnd).
Proof.
  unfold photoUrl.
  destruct (storageFilename_plain now rnd) as (H0 & _ & Hs).
  rewrite photoRouteParam_one_segment; [| done | done | |].
  - apply decodeURIComponent_no_escape, storageFilename_no_escape.
  - intros [H|H]%storageFilename_char; [done|].
    revert H. simpl. not_in_literal.
  - intros [H|H]%storageFilename_char; [done|].
    revert H. simpl. not_in_literal.
Qed.

(** When the server runs in its own directory (and no directory on the
    way to it is one that [sendFile] refuses), fetching the url that an
    accepted upload returns sends the bytes of the part. *)
Lemma upload_fetch_roundtrip (cfg : Config) (st : State) (p : Multer.Part)
    (env : UploadEnv) :
  cwd cfg = dirname cfg →
  dotFree (dirname cfg) →
  accepted p env →
  let r := postUpload cfg st (Some p) env in
  r.1 = json (Uploaded true "Photo uploaded successfully"
                (uploadedView env))
  ∧ photoRouteParam (uploaded_url (uploadedView env))
    = Some (uploaded_filename (uploadedView env))
  ∧ (getPhoto cfg r.2 (uploaded_filename (uploadedView env))).1
    = {| status := 200; body := SentFile (Multer.part_content p) |}.
Proof.
  intros Hcwd Hdir Hacc r. subst r. rewrite postUpload_accepted by done.
  split; [done|]. split; [apply photoRouteParam_photoUrl|].
  cbn [fst snd uploadedView uploaded_filename].
  erewrite getPhoto_generated; [done|done|].
  cbn [disk].
  rewrite uploadsDir_segments. unfold uploadTarget. rewrite Hcwd.
  rewrite <- app_assoc. cbn [app]. by rewrite lookup_insert_eq.
Qed.

(** C4 fails when the server is started from another directory: multer
    writes to [uploads/] of the working directory, the fetch route reads
    from [uploads/] next to index.js.  The upload succeeds and the url it
    returns answers 404. *)
Lemma roundtrip_fails_from_parent_directory :
  let r := postUpload parentConfig (initial ∅) (Some jpegPart)
                      (uploadAt 1700000000000 42) in
  Multer.part_mimetype jpegPart = "image/jpeg"
  ∧ r.1 = json (Uploaded true "Photo uploaded successfully"
                  {| uploaded_id := 1700000000000;
                     uploaded_filename := "photo-1700000000000-42.jpg";
                     uploaded_url := "/api/photos/photo-1700000000000-42.jpg";
                     uploaded_timestamp := 1700000000000 |})
  ∧ disk r.2 !! ["srv"; "app"; "uploads"; "photo-1700000000000-42.jpg"]
    = Some (Multer.part_content jpegPart)
  ∧ photoRouteParam "/api/photos/photo-1700000000000-42.jpg"
    = Some "photo-1700000000000-42.jpg"
  ∧ (getPhoto parentConfig r.2 "photo-1700000000000-42.jpg").1
    = {| status := 404; body := Message false "Photo not found" |}.
Proof. vm_compute. done. Qed.

(** ** Delete by id (C5, C6, C10) *)

Lemma present_first_match (n : Z) (l : list PhotoData) :
  n ∈ id <$> l →
  ∃ l1 photo l2, l = l1 ++ photo :: l2 ∧ (n ∉ id <$> l1) ∧ id photo = n.
Proof.
  intros (y & -> & Hy)%list_elem_of_fmap.
  destruct (first_match (idIs (Some (id y))) l) as (l1 & x & l2 & -> & H1 & Hx).
  - apply Exists_exists. exists y. split; [done|]. by apply idIs_true.
  - exists l1, x, l2. split; [done|]. split.
    + by apply no_match_not_elem.
    + by apply idIs_true.
Qed.

(** The delete route on the decimal numeral of an id, by the first record
    with that id. *)
Lemma deletePhoto_toString (cfg : Config) (st : State) (n : Z)
    (outcome : Fs.UnlinkOutcome) (l1 l2 : list PhotoData) (photo : PhotoData) :
  photos st = l1 ++ photo :: l2 →
  (n ∉ id <$> l1) →
  id photo = n →
  deletePhoto cfg st (Js.toString n) outcome
  = (json (Message true "Photo deleted successfully"),
     {| photos := l1 ++ l2;
        disk := (afterUnlink cfg st photo outcome).1;
        console := (afterUnlink cfg st photo outcome).2 |}).
Proof.
  intros Hl H1 Hid. apply deletePhoto_first; [done|..];
    rewrite parseInt_toString.
  - by apply no_match_not_elem.
  - by apply idIs_true.
Qed.

(** C5, as the code has it: for every id that at most one record carries,
    the delete of that id, when a record with it is present, succeeds,
    after which the lookup by that id finds nothing and the list has no
    photo with that id; when no record has that id, the delete answers 404
    and leaves the state as it was. *)
Theorem delete_then_absent (cfg : Config) (st : State)
    (outcome : Fs.UnlinkOutcome) (n : Z) :
  (length (filter (λ photo, id photo = n) (photos st)) ≤ 1)%nat →
  let r := deletePhoto cfg st (Js.toString n) outcome in
  if decide (n ∈ id <$> photos st)
  then r.1 = json (Message true "Photo deleted successfully")
       ∧ Js.findIndex (idIs (Some n)) (photos r.2) = None
       ∧ n ∉ (view_id <$> listedViews (getPhotos r.2).1)
  else r = ({| status := 404; body := Message false "Photo not found" |}, st).
Proof.
  intros Hcount r. subst r. case_decide as Hin.
  - destruct (present_first_match n (photos st) Hin)
      as (l1 & photo & l2 & Hl & H1 & Hid).
    rewrite (deletePhoto_toString cfg st n outcome l1 l2 photo) by done.
    cbn [fst snd photos getPhotos listedViews body json].
    assert (n ∉ (id <$> l2)) as H2.
    { rewrite Hl, filter_app, filter_cons_True, length_app in Hcount by done.
      simpl in Hcount.
      assert (filter (λ photo, id photo = n) l2 = []) as Hnil
        by (apply nil_length_inv; lia).
      intros (y & -> & Hy)%list_elem_of_fmap.
      by apply (filter_nil_not_elem_of _ _ y Hnil). }
    assert (n ∉ id <$> (l1 ++ l2)) as H12.
    { rewrite fmap_app, elem_of_app. tauto. }
    split; [done|]. split.
    + apply findIndex_None. by apply no_match_not_elem.
    + by rewrite <- list_fmap_compose.
  - apply deletePhoto_absent. rewrite parseInt_toString.
    by apply no_match_not_elem.
Qed.

(** An instance: the delete of the one record of [onePhoto]. *)
Lemma delete_then_absent_witness :
  let r := deletePhoto backendConfig onePhoto (Js.toString 1700000000000)
                       Fs.UnlinkOk in
  r.1 = json (Message true "Photo deleted successfully")
  ∧ Js.findIndex (idIs (Some 1700000000000)) (photos r.2) = None
  ∧ 1700000000000 ∉ (view_id <$> listedViews (getPhotos r.2).1).
Proof.
  assert (length (filter (λ photo, id photo = 1700000000000%Z)
                         (photos onePhoto)) ≤ 1)%nat as Hcount
    by (vm_compute; lia).
  pose proof (delete_then_absent backendConfig onePhoto Fs.UnlinkOk
                1700000000000 Hcount) as H.
  cbv zeta in H. rewrite decide_True in H; [exact H|].
  vm_compute. left.
Defined.

(** C5 as stated fails: two uploads in the same millisecond get the same
    id (both records are in the index); the delete of that id succeeds and
    removes the first of them, after which the lookup by that id still
    finds a record and the list still has a photo with that id. *)
Lemma delete_leaves_record_with_same_id :
  let r := deletePhoto backendConfig twoPhotosSameId
                       (Js.toString 1700000000000) Fs.UnlinkOk in
  Js.toString 1700000000000 = "1700000000000"
  ∧ id <$> photos twoPhotosSameId = [1700000000000; 1700000000000]
  ∧ r.1 = json (Message true "Photo deleted successfully")
  ∧ Js.findIndex (idIs (Some 1700000000000)) (photos r.2) = Some 0%nat
  ∧ view_id <$> listedViews (getPhotos r.2).1 = [1700000000000].
Proof. vm_compute. done. Qed.

(** C6: for every id of a present record, a delete whose unlink fails
    still removes the record (the first one with the id) and reports
    success; the disk is as before, so the file stays, and the failure is
    only written to the console.  When the file was not there, unlink is
    not called and nothing is logged. *)
Theorem delete_swallows_unlink_failure (cfg : Config) (st : State)
    (n : Z) (msg : string) :
  n ∈ id <$> photos st →
  ∃ l1 photo l2,
    photos st = l1 ++ photo :: l2 ∧ (n ∉ id <$> l1) ∧ id photo = n
    ∧ deletePhoto cfg st (Js.toString n) (Fs.UnlinkError msg)
      = (json (Message true "Photo deleted successfully"),
         {| photos := l1 ++ l2;
            disk := disk st;
            console :=
              if Fs.existsSync (disk st) (recordTarget cfg photo)
              then console st ++ ["Error deleting file: " +:+ msg]
              else console st |}).
Proof.
  intros Hin.
  destruct (present_first_match n (photos st) Hin)
    as (l1 & photo & l2 & Hl & H1 & Hid).
  exists l1, photo, l2. repeat split; try done.
  rewrite (deletePhoto_toString cfg st n _ l1 l2 photo) by done.
  unfold afterUnlink. by destruct (Fs.existsSync _ _).
Qed.

(** An instance: the file of the one record of [onePhoto] cannot be
    unlinked. *)
Lemma delete_swallows_unlink_failure_witness :
  ∃ l1 photo l2,
    photos onePhoto = l1 ++ photo :: l2
    ∧ (1700000000000 ∉ id <$> l1) ∧ id photo = 1700000000000
    ∧ deletePhoto backendConfig onePhoto (Js.toString 1700000000000)
                  (Fs.UnlinkError "EACCES: permission denied, unlink")
      = (json (Message true "Photo deleted successfully"),
         {| photos := l1 ++ l2;
            disk := disk onePhoto;
            console :=
              if Fs.existsSync (disk onePhoto)
                               (recordTarget backendConfig photo)
              then console onePhoto
                   ++ ["Error deleting file: "
                       +:+ "EACCES: permission denied, unlink"]
              else console onePhoto |}).
Proof.
  apply (delete_swallows_unlink_failure backendConfig onePhoto 1700000000000).
  vm_compute. left.
Defined.

(** [parseInt] reads the decimal prefix unless a [0x] follows the sign. *)
Lemma parseInt_decimal (s : string) :
  Js.stripHexPrefix (Js.stripSign (Js.trimStart s)).2 = None →
  Js.parseInt s = decimalPrefix s.
Proof.
  unfold Js.parseInt, decimalPrefix.
  destruct (Js.stripSign (Js.trimStart s)) as [negative s1]. simpl.
  by intros ->.
Qed.

(** C10, as the code has it: the delete route reads the id with
    [parseInt], which is the decimal prefix of the parameter unless the
    digits start with [0x].  When the number read is the id of a record,
    the first record with that id is removed and the answer is a success;
    when it is the id of no record, or when no number can be read, the
    answer is 404 and the state is unchanged. *)
Theorem delete_reads_id_with_parseInt (cfg : Config) (st : State)
    (idParam : string) (outcome : Fs.UnlinkOutcome) :
  let r := deletePhoto cfg st idParam outcome in
  (Js.stripHexPrefix (Js.stripSign (Js.trimStart idParam)).2 = None →
   Js.parseInt idParam = decimalPrefix idParam)
  ∧ match Js.parseInt idParam with
    | Some n =>
        if decide (n ∈ id <$> photos st)
        then ∃ l1 photo l2,
               photos st = l1 ++ photo :: l2
               ∧ (n ∉ id <$> l1) ∧ id photo = n
               ∧ r.1 = json (Message true "Photo deleted successfully")
               ∧ photos r.2 = l1 ++ l2
        else r = ({| status := 404; body := Message false "Photo not found" |},
                  st)
    | None =>
        r = ({| status := 404; body := Message false "Photo not found" |}, st)
    end.
Proof.
  intros r. subst r. split; [apply parseInt_decimal|].
  destruct (Js.parseInt idParam) as [n|] eqn:Hparse.
  - case_decide as Hin.
    + destruct (present_first_match n (photos st) Hin)
        as (l1 & photo & l2 & Hl & H1 & Hid).
      exists l1, photo, l2. repeat split; try done.
      all: rewrite (deletePhoto_first cfg st idParam outcome l1 l2 photo Hl);
        rewrite ?Hparse;
        [done|by apply no_match_not_elem|by apply idIs_true].
    + apply deletePhoto_absent. rewrite Hparse. by apply no_match_not_elem.
  - apply deletePhoto_absent. rewrite Hparse. by apply Forall_forall.
Qed.

(** The examples of C10: "123abc" deletes the record 123, "abc" deletes
    nothing. *)
Example delete_123abc :
  let st := {| photos := [mkPhotoData 123 "photo-123-7.jpg" "photo.jpg"
                            "uploads/photo-123-7.jpg" 4 "image/jpeg" 123];
               disk := ∅; console := [] |} in
  Js.parseInt "123abc" = Some 123
  ∧ deletePhoto backendConfig st "123abc" Fs.UnlinkOk
    = (json (Message true "Photo deleted successfully"),
       {| photos := []; disk := ∅; console := [] |})
  ∧ Js.parseInt "abc" = None
  ∧ deletePhoto backendConfig st "abc" Fs.UnlinkOk
    = ({| status := 404; body := Message false "Photo not found" |}, st).
Proof. vm_compute. done. Qed.

(** C10 as stated fails: the decimal prefix of "0x18BCFE56800" is 0, the
    id of no record, yet the delete route reads the string as the
    hexadecimal number 1700000000000 and removes the record with that id. *)
Lemma delete_reads_hexadecimal_id :
  let r := deletePhoto backendConfig onePhoto "0x18BCFE56800" Fs.UnlinkOk in
  decimalPrefix "0x18BCFE56800" = Some 0
  ∧ id <$> photos onePhoto = [1700000000000]
  ∧ Js.parseInt "0x18BCFE56800" = Some 1700000000000
  ∧ r.1 = json (Message true "Photo deleted successfully")
  ∧ photos r.2 = [].
Proof. vm_compute. done. Qed.

(** An instance: the id of the one record of [onePhoto], followed by
    letters. *)
Lemma delete_reads_id_with_parseInt_witness :
  Js.parseInt "1700000000000abc" = decimalPrefix "1700000000000abc"
  ∧ ∃ l1 photo l2,
      photos onePhoto = l1 ++ photo :: l2
      ∧ (1700000000000 ∉ id <$> l1) ∧ id photo = 1700000000000
      ∧ (deletePhoto backendConfig onePhoto "1700000000000abc" Fs.UnlinkOk).1
        = json (Message true "Photo deleted successfully")
      ∧ photos (deletePhoto backendConfig onePhoto "1700000000000abc"
                            Fs.UnlinkOk).2
        = l1 ++ l2.
Proof.
  destruct (delete_reads_id_with_parseInt backendConfig onePhoto
              "1700000000000abc" Fs.UnlinkOk) as [Hdec Hdel].
  split; [apply Hdec; reflexivity|].
  change (Js.parseInt "1700000000000abc") with (Some 1700000000000) in Hdel.
  cbv iota beta in Hdel.
  rewrite decide_True in Hdel; [exact Hdel|].
  vm_compute. left.
Defined.

(** ** Runs of the server (C7, C9) *)

Section Runs.

Context (cfg : Config).

Lemma run_cons (st : State) (req : Request) (reqs : list Request) :
  run cfg st (req :: reqs) = run cfg (handle cfg st req).2 reqs.
Proof. done. Qed.

Lemma postUpload_photos (st : State) (part : option Multer.Part)
    (env : UploadEnv) :
  photos (postUpload cfg st part env).2
  = photos st ++ createdBy cfg st (PostUpload part env).
Proof.
  unfold postUpload, createdBy.
  destruct (Multer.single _ _ _ _ _ _) as [|file d|err d]; simpl.
  - by rewrite app_nil_r.
  - done.
  - by rewrite app_nil_r.
Qed.

Lemma deletePhoto_photos (st : State) (idParam : string)
    (outcome : Fs.UnlinkOutcome) :
  photos (deletePhoto cfg st idParam outcome).2 `sublist_of` photos st.
Proof.
  unfold deletePhoto.
  destruct (Js.findIndex _ _) as [i|]; [|done].
  destruct (photos st !! i) as [photo|]; [|done].
  destruct (if Fs.existsSync _ _ then _ else _) as [d log]. simpl.
  apply sublist_delete.
Qed.

(** One request keeps the records in their order and appends the record
    that it creates, if any, at the end. *)
Lemma handle_photos (st : State) (req : Request) :
  photos (handle cfg st req).2 `sublist_of` photos st ++ createdBy cfg st req.
Proof.
  destruct req as [|part env|name|idParam outcome]; simpl.
  - by rewrite app_nil_r.
  - by rewrite postUpload_photos.
  - rewrite app_nil_r. unfold getPhoto. by destruct (Fs.existsSync _ _).
  - rewrite app_nil_r. apply deletePhoto_photos.
Qed.

Lemma run_photos (reqs : list Request) (st : State) :
  photos (run cfg st reqs) `sublist_of` photos st ++ created cfg st reqs.
Proof.
  revert st. induction reqs as [|req reqs IH]; intros st.
  - simpl. by rewrite app_nil_r.
  - rewrite run_cons. cbn [created]. etrans; [apply IH|].
    rewrite app_assoc. apply sublist_app; [apply handle_photos|done].
Qed.

Lemma run_accepted_uploads (uploads : list (Multer.Part * UploadEnv))
    (st : State) :
  Forall (λ u, accepted u.1 u.2) uploads →
  photos (run cfg st (uploadRequest <$> uploads))
  = photos st ++ ((λ u, uploadedRecord u.1 u.2) <$> uploads).
Proof.
  intros H. revert st. induction H as [|u uploads Hu _ IH]; intros st.
  - simpl. by rewrite app_nil_r.
  - rewrite fmap_cons, run_cons. rewrite IH. unfold uploadRequest at 1.
    cbn [handle]. rewrite postUpload_accepted by done.
    cbn [snd photos]. by rewrite <- app_assoc.
Qed.

#[global] Instance seedName_inj : Inj (=) (=) seedName.
Proof.
  intros [now rnd] [now' rnd'] E. unfold seedName in E. simpl in E.
  apply storageFilename_inj in E as [-> ->]. done.
Qed.



End Runs.

(** C7, as the code has it: from the start of the server and after any
    run of requests, the list route answers with one view for each record
    of the index, in the order of the index, made of the id, the file name,
    the original name, the url [/api/photos/<file name>] and the timestamp
    of the record, the count being the length of the list; the records of
    the index are records that the run created, in the order of their
    creation.  After a run of [n] accepted uploads and nothing else, the
    list holds exactly the views of the [n] records of these uploads, in
    upload order, and the listed ids are the clock readings of these
    uploads, in upload order. *)
Theorem photos_listed_in_upload_order (cfg : Config)
    (d : gmap (list string) (list byte)) :
  (∀ reqs,
     let st := run cfg (initial d) reqs in
     (getPhotos st).1
     = json (PhotoList true (length (photos st))
               ((λ photo,
                   {| view_id := id photo;
                      view_filename := filename photo;
                      view_originalName := originalName photo;
                      view_url := "/api/photos/" +:+ filename photo;
                      view_timestamp := timestamp photo |}) <$> photos st))
     ∧ length (listedViews (getPhotos st).1) = length (photos st)
     ∧ photos st `sublist_of` created cfg (initial d) reqs)
  ∧ (∀ uploads,
       Forall (λ u, accepted u.1 u.2) uploads →
       let st := run cfg (initial d) (uploadRequest <$> uploads) in
       photos st = (λ u, uploadedRecord u.1 u.2) <$> uploads
       ∧ (getPhotos st).1
         = json (PhotoList true (length uploads)
                   ((λ u,
                       let name :=
                         storageFilename (nowFilename u.2) (random u.2) in
                       {| view_id := nowId u.2;
                          view_filename := name;
                          view_originalName := Multer.part_originalname u.1;
                          view_url := "/api/photos/" +:+ name;
                          view_timestamp := nowTimestamp u.2 |}) <$> uploads))
       ∧ view_id <$> listedViews (getPhotos st).1
         = (λ u, nowId u.2) <$> uploads).
Proof.
  split.
  - intros reqs st. split; [done|].
    cbn [getPhotos fst listedViews body json].
    split; [apply length_fmap|].
    apply (run_photos cfg reqs (initial d)).
  - intros uploads Hacc st.
    assert (photos st = (λ u, uploadedRecord u.1 u.2) <$> uploads) as Hst.
    { subst st. by rewrite run_accepted_uploads. }
    split; [done|]. unfold getPhotos. rewrite Hst. cbn [fst].
    rewrite length_fmap, <- !list_fmap_compose.
    split; [done|]. cbn [listedViews body json].
    by rewrite <- list_fmap_compose.
Qed.

Lemma jpegPart_accepted (now : Z) (rnd : N) :
  accepted jpegPart (uploadAt now rnd).
Proof. unfold accepted. repeat split. Qed.

Lemma threeUploads_accepted : Forall (λ u, accepted u.1 u.2) threeUploads.
Proof. repeat (constructor; [apply jpegPart_accepted|]). constructor. Qed.

(** An instance: three uploads, one millisecond apart. *)
Lemma photos_listed_in_upload_order_witness :
  let st := run backendConfig (initial ∅) (uploadRequest <$> threeUploads) in
  Forall (λ u, accepted u.1 u.2) threeUploads
  ∧ photos st = (λ u, uploadedRecord u.1 u.2) <$> threeUploads
  ∧ view_filename <$> listedViews (getPhotos st).1
    = ["photo-1700000000000-42.jpg"; "photo-1700000000001-7.jpg";
       "photo-1700000000002-99.jpg"]
  ∧ view_id <$> listedViews (getPhotos st).1
    = [1700000000000; 1700000000001; 1700000000002].
Proof.
  destruct (photos_listed_in_upload_order backendConfig ∅) as [_ Hn].
  destruct (Hn threeUploads threeUploads_accepted) as (Hphotos & Hlist & Hids).
  split; [exact threeUploads_accepted|].
  split; [exact Hphotos|]. split; [|exact Hids].
  cbv zeta in Hlist. rewrite Hlist. reflexivity.
Defined.

(** The claim C7 fails where it says that the listed ids never decrease:
    the id of a record is the reading of [Date.now()] in the handler, a
    wall clock that can be set back between two uploads.  After two
    accepted uploads, the second of which reads the clock one millisecond
    before the first, the list holds the two photos in upload order with
    decreasing ids. *)
Lemma listed_ids_decrease_when_clock_steps_back :
  let st := run backendConfig (initial ∅)
              (uploadRequest <$> clockStepsBack) in
  Forall (λ u, accepted u.1 u.2) clockStepsBack
  ∧ (getPhotos st).1
    = json (PhotoList true 2
              [{| view_id := 1700000000002;
                  view_filename := "photo-1700000000002-42.jpg";
                  view_originalName := "photo.jpg";
                  view_url := "/api/photos/photo-1700000000002-42.jpg";
                  view_timestamp := 1700000000002 |};
               {| view_id := 1700000000001;
                  view_filename := "photo-1700000000001-7.jpg";
                  view_originalName := "photo.jpg";
                  view_url := "/api/photos/photo-1700000000001-7.jpg";
                  view_timestamp := 1700000000001 |}])
  ∧ ¬ Sorted Z.le (view_id <$> listedViews (getPhotos st).1).
Proof.
  split; [repeat (constructor; [apply jpegPart_accepted|]); constructor|].
  split; [vm_compute; reflexivity|].
  intros H. vm_compute in H.
  apply Sorted_inv in H as [_ H]. apply HdRel_inv in H. by apply H.
Qed.

(** ** File names (C9) *)




(** * More of the server: runs, the disk and the counts *)

(** ** Steps of a run *)


Section Steps.

Context (cfg : Config).

Lemma deletePhoto_cases (st : State) (idParam : string)
    (outcome : Fs.UnlinkOutcome) :
  deletePhoto cfg st idParam outcome
  = ({| status := 404; body := Message false "Photo not found" |}, st)
  ∨ ∃ l1 photo l2,
      photos st = l1 ++ photo :: l2
      ∧ Forall (λ y, idIs (Js.parseInt idParam) y = false) l1
      ∧ idIs (Js.parseInt idParam) photo = true
      ∧ deletePhoto cfg st idParam outcome
        = (json (Message true "Photo deleted successfully"),
           {| photos := l1 ++ l2;
              disk := (afterUnlink cfg st photo outcome).1;
              console := (afterUnlink cfg st photo outcome).2 |}).
Proof.
  destruct (decide (Exists (λ y, idIs (Js.parseInt idParam) y = true)
                           (photos st))) as [Hex|Hno].
  - right. destruct (first_match _ _ Hex) as (l1 & photo & l2 & Hl & H1 & Hx).
    exists l1, photo, l2. repeat split; try done.
    by apply deletePhoto_first.
  - left. apply deletePhoto_absent. apply Forall_forall. intros y Hy.
    destruct (idIs (Js.parseInt idParam) y) eqn:E; [|done].
    exfalso. apply Hno, Exists_exists. by exists y.
Qed.

Lemma handle_step (st : State) (req : Request) :
  step cfg st req (handle cfg st req).2.
Proof.
  destruct req as [|part env|name|idParam outcome]; cbn [handle].
  - apply step_same.
  - destruct (postUpload_cases part env)
      as [->|[(p & -> & Himg)|[(p & msg & residue & -> & Himg & Hw)
         |[(p & -> & Himg & Hw & Hbig)|(p & -> & Hacc)]]]].
    + rewrite postUpload_no_file. apply step_same.
    + rewrite postUpload_filtered by done. apply step_same.
    + rewrite (postUpload_write_error cfg st p env msg residue) by done.
      cbn [snd]. destruct residue as [partial|].
      * apply step_residue.
      * rewrite state_eta. apply step_same.
    + rewrite postUpload_too_large by done. apply step_removed.
    + rewrite postUpload_accepted by done. by apply step_stored.
  - unfold getPhoto. destruct (Fs.existsSync _ _); apply step_same.
  - destruct (deletePhoto_cases st idParam outcome)
      as [->|(l1 & photo & l2 & Hl & _ & _ & ->)].
    + apply step_same.
    + by apply step_deleted.
Qed.

Lemma uploadedRecord_generated (p : Multer.Part) (env : UploadEnv) :
  generated (uploadedRecord p env).
Proof. by exists (nowFilename env), (random env). Qed.

Lemma uploadTarget_seedFile (env : UploadEnv) :
  uploadTarget cfg env = seedFile cfg (nowFilename env, random env).
Proof. done. Qed.

Lemma recordFile_uploadedRecord (p : Multer.Part) (env : UploadEnv) :
  recordFile cfg (uploadedRecord p env) = uploadTarget cfg env.
Proof. done. Qed.

Lemma recordFile_inj (photo photo' : PhotoData) :
  recordFile cfg photo = recordFile cfg photo' → filename photo = filename photo'.
Proof.
  unfold recordFile. intros E. apply app_inv_head in E. by injection E.
Qed.

(** The delete handler resolves the path of a generated record to its
    file in [uploads/] of the working directory. *)
Lemma recordTarget_generated (photo : PhotoData) :
  generated photo →
  recordTarget cfg photo = Path.mk (recordFile cfg photo) false.
Proof.
  intros (now & rnd & Hname & Hpath). unfold recordTarget. rewrite Hpath.
  apply resolve_uploads_plain. rewrite Hname. apply storageFilename_plain.
Qed.

Lemma afterUnlink_generated (st : State) (photo : PhotoData)
    (outcome : Fs.UnlinkOutcome) :
  generated photo →
  (afterUnlink cfg st photo outcome).1 = disk st
  ∨ (afterUnlink cfg st photo outcome).1 = delete (recordFile cfg photo) (disk st).
Proof.
  intros Hgen. unfold afterUnlink. rewrite recordTarget_generated by done.
  destruct (Fs.existsSync _ _); [|by left].
  destruct outcome; [by right|by left].
Qed.

(** One request changes the disk at the file of its own upload, or at the
    file of the record that it removes. *)
Lemma step_disk (st st' : State) (req : Request) (q : list string) :
  step cfg st req st' →
  Forall generated (photos st) →
  (∀ seed, seed ∈ nameSeeds [req] → q ≠ seedFile cfg seed) →
  (∀ l1 photo l2, photos st = l1 ++ photo :: l2 → photos st' = l1 ++ l2 →
                  q ≠ recordFile cfg photo) →
  disk st' !! q = disk st !! q.
Proof.
  intros Hstep Hgen Hseed Hrec.
  inversion Hstep as [|p env Hacc|part env partial|part env
                      |idParam outcome l1 photo l2 Hl]; subst; cbn [disk].
  - done.
  - apply lookup_insert_ne. rewrite uploadTarget_seedFile. intros E.
    eapply Hseed; [|done]. cbn. left.
  - apply lookup_insert_ne. rewrite uploadTarget_seedFile. intros E.
    eapply Hseed; [|done]. cbn. left.
  - apply lookup_delete_ne. rewrite uploadTarget_seedFile. intros E.
    eapply Hseed; [|done]. cbn. left.
  - assert (generated photo) as Hphoto.
    { rewrite Forall_forall in Hgen. apply Hgen. rewrite Hl.
      apply elem_of_app. right. left. }
    destruct (afterUnlink_generated st photo outcome Hphoto) as [->| ->];
      [done|].
    apply lookup_delete_ne. intros E. by eapply (Hrec l1 photo l2).
Qed.

Lemma step_generated (st st' : State) (req : Request) :
  step cfg st req st' →
  Forall generated (photos st) → Forall generated (photos st').
Proof.
  intros Hstep Hgen.
  inversion Hstep as [|p env Hacc|part env partial|part env
                      |idParam outcome l1 photo l2 Hl]; subst; cbn [photos];
    try done.
  - apply Forall_app. split; [done|].
    constructor; [apply uploadedRecord_generated|constructor].
  - rewrite Hl in Hgen. apply Forall_app in Hgen as [H1 H2].
    apply Forall_cons in H2 as [_ H2]. by apply Forall_app.
Qed.

(** The file names after a request: those before, and the name of the
    upload. *)
Lemma step_filenames (st st' : State) (req : Request) (name : string) :
  step cfg st req st' →
  name ∈ filename <$> photos st' →
  name ∈ filename <$> photos st ∨ name ∈ seedName <$> nameSeeds [req].
Proof.
  intros Hstep Hin.
  inversion Hstep as [|p env Hacc|part env partial|part env
                      |idParam outcome l1 photo l2 Hl]; subst;
    cbn [photos] in Hin; try by left.
  - rewrite fmap_app in Hin. apply elem_of_app in Hin as [Hin|Hin];
      [by left|right].
    cbn in Hin. apply list_elem_of_singleton in Hin as ->. cbn. left.
  - left. rewrite Hl. rewrite fmap_app, elem_of_app in Hin.
    rewrite fmap_app, fmap_cons, elem_of_app, elem_of_cons. tauto.
Qed.

End Steps.

Section RunInvariants.

Context (cfg : Config).

Lemma nameSeeds_cons (req : Request) (reqs : list Request) :
  nameSeeds (req :: reqs) = nameSeeds [req] ++ nameSeeds reqs.
Proof. unfold nameSeeds. by rewrite <- omap_app. Qed.

(** The disk outside the files of the records and of the uploads to come
    stays as it is. *)
Lemma run_disk_frame (reqs : list Request) (st : State) (q : list string) :
  Forall generated (photos st) →
  (∀ photo, photo ∈ photos st → q ≠ recordFile cfg photo) →
  (∀ seed, seed ∈ nameSeeds reqs → q ≠ seedFile cfg seed) →
  disk (run cfg st reqs) !! q = disk st !! q.
Proof.
  revert st. induction reqs as [|req reqs IH]; intros st Hgen Hrec Hseed;
    [done|].
  rewrite run_cons. pose proof (handle_step cfg st req) as Hstep.
  rewrite nameSeeds_cons in Hseed.
  rewrite IH.
  - apply (step_disk cfg st _ req); [done..| |].
    + intros seed Hin. apply Hseed, elem_of_app. by left.
    + intros l1 photo l2 Hl _. apply Hrec. rewrite Hl.
      apply elem_of_app. right. left.
  - by apply (step_generated cfg st _ req).
  - intros photo Hin.
    destruct (step_filenames cfg st _ req (filename photo) Hstep)
      as [Hold|Hnew]; [by apply list_elem_of_fmap_2|..].
    + apply list_elem_of_fmap in Hold as (photo' & Hname & Hin').
      unfold recordFile. rewrite Hname. by apply Hrec.
    + apply list_elem_of_fmap in Hnew as (seed & Hname & Hin').
      unfold recordFile. rewrite Hname. apply Hseed, elem_of_app. by left.
  - intros seed Hin. apply Hseed, elem_of_app. by right.
Qed.

Lemma step_keeps_file (st st' : State) (req : Request) (photo : PhotoData) :
  step cfg st req st' →
  consistent cfg st →
  (∀ seed, seed ∈ nameSeeds [req] → seedName seed ∉ filename <$> photos st) →
  photo ∈ photos st → photo ∈ photos st' →
  onDisk cfg (disk st') photo.
Proof.
  intros Hstep (Hgen & Hnd & Hdisk) Hfresh Hin Hin'.
  rewrite Forall_forall in Hdisk.
  destruct (Hdisk photo Hin) as (content & Hfile & Hsize).
  exists content. split; [|done]. rewrite <- Hfile.
  apply (step_disk cfg st st' req); [done..| |].
  - intros seed Hseed E. apply (Hfresh seed Hseed).
    unfold recordFile, seedFile in E. apply app_inv_head in E.
    injection E as <-. by apply list_elem_of_fmap_2.
  - intros l1 removed l2 Hl Hl' E. apply recordFile_inj in E.
    rewrite Hl, fmap_app, fmap_cons in Hnd.
    apply NoDup_app in Hnd as (_ & H1 & H2).
    apply NoDup_cons in H2 as [H2 _].
    rewrite Hl' in Hin'. apply elem_of_app in Hin' as [Hin'|Hin'].
    + apply (H1 (filename photo)); [by apply list_elem_of_fmap_2|].
      rewrite E. left.
    + apply H2. rewrite <- E. by apply list_elem_of_fmap_2.
Qed.

Lemma step_consistent (st st' : State) (req : Request) :
  step cfg st req st' →
  consistent cfg st →
  (∀ seed, seed ∈ nameSeeds [req] → seedName seed ∉ filename <$> photos st) →
  consistent cfg st'.
Proof.
  intros Hstep Hcons Hfresh.
  pose proof (λ photo, step_keeps_file st st' req photo Hstep Hcons Hfresh)
    as Hold.
  pose proof (step_generated cfg st st' req Hstep (proj1 Hcons)) as Hgen'.
  destruct Hcons as (Hgen & Hnd & Hdisk).
  split; [done|].
  inversion Hstep as [|p env Hacc|part env partial|part env
                      |idParam outcome l1 photo l2 Hl]; subst.
  - done.
  - cbn [photos disk] in *.
    assert (filename (uploadedRecord p env) ∉ filename <$> photos st) as Hnew
      by (apply (Hfresh (nowFilename env, random env)); cbn; left).
    split.
    + rewrite fmap_app. apply NoDup_app. repeat split; [done| |].
      * intros name Hname Hin. cbn in Hin.
        apply list_elem_of_singleton in Hin as ->. done.
      * cbn. apply NoDup_singleton.
    + apply Forall_app. split.
      * apply Forall_forall. intros photo Hin. apply Hold; [done|].
        apply elem_of_app. by left.
      * constructor; [|constructor].
        exists (Multer.part_content p).
        rewrite recordFile_uploadedRecord, lookup_insert_eq. done.
  - cbn [photos disk] in *. split; [done|].
    apply Forall_forall. intros photo Hin. by apply Hold.
  - cbn [photos disk] in *. split; [done|].
    apply Forall_forall. intros photo Hin. by apply Hold.
  - cbn [photos disk] in *. split.
    + refine (sublist_NoDup _ _ Hnd _). apply fmap_sublist. rewrite Hl.
      apply sublist_app; [done|]. by apply sublist_cons.
    + apply Forall_forall. intros ph Hin. apply Hold; [|done].
      rewrite Hl. rewrite elem_of_app in Hin.
      rewrite elem_of_app, elem_of_cons. tauto.
Qed.

Lemma run_consistent (reqs : list Request) (st : State) :
  consistent cfg st →
  NoDup (nameSeeds reqs) →
  (∀ seed, seed ∈ nameSeeds reqs → seedName seed ∉ filename <$> photos st) →
  consistent cfg (run cfg st reqs).
Proof.
  revert st. induction reqs as [|req reqs IH]; intros st Hcons Hnd Hfresh;
    [done|].
  rewrite run_cons. pose proof (handle_step cfg st req) as Hstep.
  rewrite nameSeeds_cons in Hnd, Hfresh.
  apply NoDup_app in Hnd as (_ & Hhead & Hnd).
  apply IH; [|done|].
  - apply (step_consistent st _ req); [done..|].
    intros seed Hin. apply Hfresh, elem_of_app. by left.
  - intros seed Hin Hname.
    destruct (step_filenames cfg st _ req _ Hstep Hname) as [Hold|Hnew].
    + revert Hold. apply Hfresh, elem_of_app. by right.
    + apply list_elem_of_fmap in Hnew as (seed' & E & Hin').
      apply (inj seedName) in E as <-. by apply (Hhead seed).
Qed.

Lemma initial_consistent (d : gmap (list string) (list byte)) :
  consistent cfg (initial d).
Proof. repeat split; cbn; constructor. Qed.

End RunInvariants.

(** ** What a run does to the disk *)

(** X1: in any run from the start of the server, the disk changes only
    at the files of the uploads of the run: every path other than
    [uploads/<generated name>] in the working directory, for the names that
    the uploads of the run generate, holds after the run what it held
    before. *)
Theorem run_changes_only_uploaded_files (cfg : Config)
    (d : gmap (list string) (list byte)) (reqs : list Request)
    (q : list string) :
  q ∉ seedFile cfg <$> nameSeeds reqs →
  disk (run cfg (initial d) reqs) !! q = d !! q.
Proof.
  intros Hq. apply (run_disk_frame cfg reqs (initial d) q).
  - constructor.
  - intros photo Hin. by apply elem_of_nil in Hin.
  - intros seed Hin ->. apply Hq. by apply list_elem_of_fmap_2.
Qed.

(** An instance: the file index.js of the server after [mixedRun]. *)
Lemma run_changes_only_uploaded_files_witness :
  (["srv"; "app"; "backend"; "index.js"]
   ∉ seedFile backendConfig <$> nameSeeds mixedRun)
  ∧ disk (run backendConfig (initial sourceDisk) mixedRun)
      !! ["srv"; "app"; "backend"; "index.js"]
    = Some ["105"; "109"; "112"; "111"; "114"; "116"]%byte.
Proof.
  assert (["srv"; "app"; "backend"; "index.js"]
          ∉ seedFile backendConfig <$> nameSeeds mixedRun) as Hq.
  { apply (bool_decide_unpack _). vm_compute. exact I. }
  split; [exact Hq|].
  rewrite (run_changes_only_uploaded_files backendConfig sourceDisk mixedRun
             _ Hq).
  reflexivity.
Defined.

(** X2: when no two uploads of a run generate the same file name, every
    record of the index after the run has a file name of its own, the path
    [uploads/<file name>], and its file on disk in [uploads/] of the working
    directory, with as many bytes as the record gives as its size. *)
Theorem listed_photos_have_files (cfg : Config)
    (d : gmap (list string) (list byte)) (reqs : list Request) :
  NoDup (nameSeeds reqs) →
  let st := run cfg (initial d) reqs in
  NoDup (filename <$> photos st)
  ∧ Forall (λ photo,
              path photo = "uploads/" +:+ filename photo
              ∧ ∃ content,
                  disk st !! (cwd cfg ++ ["uploads"; filename photo])
                  = Some content
                  ∧ size photo = N.of_nat (length content))
           (photos st).
Proof.
  intros Hnd st.
  destruct (run_consistent cfg reqs (initial d) (initial_consistent cfg d) Hnd)
    as (Hgen & Hnames & Hdisk).
  { intros seed _ Hin. by apply elem_of_nil in Hin. }
  split; [done|].
  rewrite Forall_forall in Hgen, Hdisk. apply Forall_forall.
  intros photo Hin. split.
  - by destruct (Hgen photo Hin) as (now & rnd & _ & Hpath).
  - by apply Hdisk.
Qed.

Lemma mixedRun_seeds : NoDup (nameSeeds mixedRun).
Proof. apply (bool_decide_unpack _). vm_compute. exact I. Qed.

(** An instance: the index after [mixedRun]. *)
Lemma listed_photos_have_files_witness :
  let st := run backendConfig (initial sourceDisk) mixedRun in
  NoDup (nameSeeds mixedRun)
  ∧ filename <$> photos st = ["photo-1700000000002-99.jpg"]
  ∧ NoDup (filename <$> photos st)
  ∧ Forall (λ photo,
              path photo = "uploads/" +:+ filename photo
              ∧ ∃ content,
                  disk st !! (cwd backendConfig ++ ["uploads"; filename photo])
                  = Some content
                  ∧ size photo = N.of_nat (length content))
           (photos st).
Proof.
  intros st. split; [exact mixedRun_seeds|]. split; [reflexivity|].
  exact (listed_photos_have_files backendConfig sourceDisk mixedRun
           mixedRun_seeds).
Defined.

(** In its own directory the server can fetch every photo of its
    index. *)
Lemma run_photos_fetchable (cfg : Config)
    (d : gmap (list string) (list byte)) (reqs : list Request) :
  cwd cfg = dirname cfg →
  dotFree (dirname cfg) →
  NoDup (nameSeeds reqs) →
  let st := run cfg (initial d) reqs in
  Forall (λ photo,
            photoRouteParam (photoUrl (filename photo)) = Some (filename photo)
            ∧ ∃ content,
                getPhoto cfg st (filename photo)
                = ({| status := 200; body := SentFile content |}, st))
         (photos st).
Proof.
  intros Hcwd Hdir Hnd st.
  destruct (run_consistent cfg reqs (initial d) (initial_consistent cfg d) Hnd)
    as (Hgen & _ & Hdisk).
  { intros seed _ Hin. by apply elem_of_nil in Hin. }
  rewrite Forall_forall in Hgen, Hdisk. apply Forall_forall.
  intros photo Hin.
  destruct (Hgen photo Hin) as (now & rnd & Hname & _).
  destruct (Hdisk photo Hin) as (content & Hfile & _).
  split.
  - rewrite Hname. apply photoRouteParam_photoUrl.
  - exists content. rewrite Hname.
    apply getPhoto_generated; [done|]. rewrite <- Hname.
    replace (uploadsDir cfg ++ [filename photo]) with (recordFile cfg photo)
      by (unfold recordFile;
          by rewrite uploadsDir_segments, <- Hcwd, <- app_assoc).
    done.
Qed.

(** X3: when the server runs in its own directory (no directory on the
    way to it being one that [sendFile] refuses) and no two uploads of a
    run generate the same file name, every photo of the list can be
    fetched: the route parameter of its url is its file name, and the fetch
    route answers that name with a file and leaves the state as it is. *)
Theorem listed_photos_can_be_fetched (cfg : Config)
    (d : gmap (list string) (list byte)) (reqs : list Request) :
  cwd cfg = dirname cfg →
  dotFree (dirname cfg) →
  NoDup (nameSeeds reqs) →
  let st := run cfg (initial d) reqs in
  Forall (λ view,
            photoRouteParam (view_url view) = Some (view_filename view)
            ∧ ∃ content,
                getPhoto cfg st (view_filename view)
                = ({| status := 200; body := SentFile content |}, st))
         (listedViews (getPhotos st).1).
Proof.
  intros Hcwd Hdir Hnd st.
  cbn [getPhotos fst listedViews body json]. apply Forall_fmap.
  exact (run_photos_fetchable cfg d reqs Hcwd Hdir Hnd).
Qed.

(** An instance: the list after [mixedRun]. *)
Lemma listed_photos_can_be_fetched_witness :
  let st := run backendConfig (initial sourceDisk) mixedRun in
  view_url <$> listedViews (getPhotos st).1
  = ["/api/photos/photo-1700000000002-99.jpg"]
  ∧ Forall (λ view,
              photoRouteParam (view_url view) = Some (view_filename view)
              ∧ ∃ content,
                  getPhoto backendConfig st (view_filename view)
                  = ({| status := 200; body := SentFile content |}, st))
           (listedViews (getPhotos st).1).
Proof.
  intros st. split; [reflexivity|].
  exact (listed_photos_can_be_fetched backendConfig sourceDisk mixedRun
           eq_refl backendConfig_dotFree mixedRun_seeds).
Defined.

(** ** What the index holds *)

(** What holds of the records of accepted uploads holds of the index. *)
Lemma step_records (cfg : Config) (P : PhotoData → Prop) (st st' : State)
    (req : Request) :
  (∀ p env, accepted p env → P (uploadedRecord p env)) →
  step cfg st req st' →
  Forall P (photos st) → Forall P (photos st').
Proof.
  intros HP Hstep Hst.
  inversion Hstep as [|p env Hacc|part env partial|part env
                      |idParam outcome l1 photo l2 Hl]; subst; cbn [photos];
    try done.
  - apply Forall_app. split; [done|].
    constructor; [by apply HP|constructor].
  - rewrite Hl in Hst. apply Forall_app in Hst as [H1 H2].
    apply Forall_cons in H2 as [_ H2]. by apply Forall_app.
Qed.

Lemma run_records (cfg : Config) (P : PhotoData → Prop) :
  (∀ p env, accepted p env → P (uploadedRecord p env)) →
  ∀ reqs st, Forall P (photos st) → Forall P (photos (run cfg st reqs)).
Proof.
  intros HP reqs. induction reqs as [|req reqs IH]; intros st Hst; [done|].
  rewrite run_cons. apply IH.
  by apply (step_records cfg P st _ req HP (handle_step cfg st req)).
Qed.

(** X4: whatever the requests of a run from the start of the server,
    every record of the index is the record of a part that was declared as
    an image and has at most 10 MiB, under a file name of the name
    generator and the path [uploads/<file name>]. *)
Theorem index_holds_validated_photos (cfg : Config)
    (d : gmap (list string) (list byte)) (reqs : list Request) :
  Forall (λ photo,
            Js.startsWith (mimetype photo) "image/" = true
            ∧ (size photo ≤ 10 * 1024 * 1024)%N
            ∧ ∃ now rnd,
                filename photo = storageFilename now rnd
                ∧ path photo = "uploads/" +:+ filename photo)
         (photos (run cfg (initial d) reqs)).
Proof.
  apply (run_records cfg); [|constructor].
  intros p env (Himg & Hsize & _). split; [done|]. split.
  - cbn [size uploadedRecord]. cbn [Multer.fileSize upload] in Hsize. lia.
  - apply uploadedRecord_generated.
Qed.

(** ** Upload and delete *)

Section UploadDelete.

Context (cfg : Config).

(** The delete of the id of an upload that was just accepted, when no
    earlier record has that id. *)
Lemma delete_after_upload (st : State) (p : Multer.Part) (env : UploadEnv)
    (outcome : Fs.UnlinkOutcome) :
  accepted p env →
  (nowId env ∉ id <$> photos st) →
  deletePhoto cfg (postUpload cfg st (Some p) env).2 (Js.toString (nowId env))
              outcome
  = (json (Message true "Photo deleted successfully"),
     {| photos := photos st;
        disk := match outcome with
                | Fs.UnlinkOk => delete (uploadTarget cfg env) (disk st)
                | Fs.UnlinkError _ =>
                    <[uploadTarget cfg env := Multer.part_content p]> (disk st)
                end;
        console := match outcome with
                   | Fs.UnlinkOk => console st
                   | Fs.UnlinkError msg =>
                       console st ++ ["Error deleting file: " +:+ msg]
                   end |}).
Proof.
  intros Hacc Hid. rewrite postUpload_accepted by done. cbn [snd].
  rewrite (deletePhoto_toString cfg _ (nowId env) outcome (photos st) []
             (uploadedRecord p env)); [|done..].
  rewrite app_nil_r. unfold afterUnlink.
  rewrite recordTarget_generated by apply uploadedRecord_generated.
  rewrite recordFile_uploadedRecord.
  unfold Fs.existsSync, Fs.readFile, Fs.unlink.
  cbn [Path.trailing Path.segments disk console].
  rewrite lookup_insert_eq.
  rewrite bool_decide_eq_true_2 by by eexists.
  destruct outcome; cbn [fst snd]; [|done].
  by rewrite delete_insert_eq.
Qed.

End UploadDelete.

(** X5: an accepted upload followed by the delete of its id, when no
    earlier record has that id, leaves the index and the console as they
    were before the upload, and no file at the path of the upload.  When
    there was no file at that path before, the state of the server is the
    one before the upload. *)
Theorem upload_then_delete_restores (cfg : Config) (st : State)
    (p : Multer.Part) (env : UploadEnv) :
  accepted p env →
  (nowId env ∉ id <$> photos st) →
  let uploaded := (postUpload cfg st (Some p) env).2 in
  let r := deletePhoto cfg uploaded (Js.toString (nowId env)) Fs.UnlinkOk in
  r.1 = json (Message true "Photo deleted successfully")
  ∧ photos r.2 = photos st
  ∧ console r.2 = console st
  ∧ disk r.2 = delete (uploadTarget cfg env) (disk st)
  ∧ (disk st !! uploadTarget cfg env = None → r.2 = st).
Proof.
  intros Hacc Hid uploaded r. subst uploaded r.
  rewrite delete_after_upload by done. cbn [fst snd photos disk console].
  repeat split. intros Hfree. rewrite delete_id by done. apply state_eta.
Qed.

(** An instance: one upload to the empty server, and its delete. *)
Lemma upload_then_delete_restores_witness :
  let env := uploadAt 1700000000000 42 in
  let uploaded := (postUpload backendConfig (initial ∅) (Some jpegPart) env).2 in
  accepted jpegPart env
  ∧ (nowId env ∉ id <$> photos (initial ∅))
  ∧ length (photos uploaded) = 1%nat
  ∧ deletePhoto backendConfig uploaded "1700000000000" Fs.UnlinkOk
    = (json (Message true "Photo deleted successfully"), initial ∅).
Proof.
  intros env uploaded.
  assert (accepted jpegPart env) as Hacc by apply jpegPart_accepted.
  assert (nowId env ∉ id <$> photos (initial (∅ : gmap _ _))) as Hid
    by (intros H; by apply elem_of_nil in H).
  split; [exact Hacc|]. split; [exact Hid|]. split; [reflexivity|].
  destruct (upload_then_delete_restores backendConfig (initial ∅) jpegPart env
              Hacc Hid) as (Hres & _ & _ & _ & Hst).
  rewrite (surjective_pairing (deletePhoto _ _ _ _)).
  change "1700000000000" with (Js.toString (nowId env)).
  fold uploaded in Hres, Hst. rewrite Hres, Hst; [reflexivity|].
  reflexivity.
Defined.

(** The removal of an entry that does not lie beneath a path leaves what
    that path is. *)
Lemma isDirectory_delete (d : gmap (list string) (list byte))
    (k : list string) (p : Path.t) :
  ¬ Fs.beneath (Path.segments p) k →
  Fs.isDirectory (delete k d) p = Fs.isDirectory d p.
Proof.
  intros Hk. unfold Fs.isDirectory. apply bool_decide_ext. split.
  - intros (i & x & [_ Hi]%lookup_delete_Some & HP). by exists i, x.
  - intros (i & x & Hi & HP). exists i, x. split; [|done].
    rewrite lookup_delete_ne; [done|]. by intros ->.
Qed.

(** After the unlink that the delete route makes, when it does not fail,
    no file is at the path of the record. *)
Lemma unlinked_file_absent (cfg : Config) (st : State) (photo : PhotoData) :
  Fs.readFile (afterUnlink cfg st photo Fs.UnlinkOk).1 (recordTarget cfg photo)
  = None.
Proof.
  unfold afterUnlink.
  destruct (Fs.existsSync (disk st) (recordTarget cfg photo)) eqn:E; cbn [fst].
  - unfold Fs.readFile, Fs.unlink.
    destruct (Path.trailing _); [done|]. by rewrite lookup_delete_eq.
  - unfold Fs.existsSync in E. apply orb_false_iff in E as [E _].
    apply bool_decide_eq_false in E.
    destruct (Fs.readFile _ _) eqn:F; [|done]. destruct E. by eexists.
Qed.

(** The unlink of a file removes no directory. *)
Lemma unlinked_isDirectory (cfg : Config) (st : State) (photo : PhotoData)
    (outcome : Fs.UnlinkOutcome) :
  Fs.isDirectory (afterUnlink cfg st photo outcome).1 (recordTarget cfg photo)
  = Fs.isDirectory (disk st) (recordTarget cfg photo).
Proof.
  unfold afterUnlink.
  destruct (Fs.existsSync _ _); [|done]. destruct outcome; [|done].
  cbn [fst]. unfold Fs.unlink. apply isDirectory_delete. by intros [_ ?].
Qed.

(** X6: the delete of the id of a present record, when the unlink does
    not fail, removes the first record with that id and nothing else from
    the index, writes nothing to the console, and leaves no file at the path
    of that record (so that something exists at that path afterwards only
    when a directory stood there); every other path of the disk is as
    before. *)
Theorem delete_removes_record_and_file (cfg : Config) (st : State) (n : Z) :
  n ∈ id <$> photos st →
  ∃ l1 photo l2,
    photos st = l1 ++ photo :: l2 ∧ (n ∉ id <$> l1) ∧ id photo = n
    ∧ let r := deletePhoto cfg st (Js.toString n) Fs.UnlinkOk in
      r.1 = json (Message true "Photo deleted successfully")
      ∧ photos r.2 = l1 ++ l2
      ∧ console r.2 = console st
      ∧ Fs.readFile (disk r.2) (recordTarget cfg photo) = None
      ∧ Fs.existsSync (disk r.2) (recordTarget cfg photo)
        = Fs.isDirectory (disk st) (recordTarget cfg photo)
      ∧ ∀ q, q ≠ Path.segments (recordTarget cfg photo) →
             disk r.2 !! q = disk st !! q.
Proof.
  intros Hin.
  destruct (present_first_match n (photos st) Hin)
    as (l1 & photo & l2 & Hl & H1 & Hid).
  exists l1, photo, l2. repeat split; try done;
    rewrite (deletePhoto_toString cfg st n _ l1 l2 photo) by done;
    cbn [fst snd photos disk console]; try done.
  - unfold afterUnlink. by destruct (Fs.existsSync _ _).
  - by apply unlinked_file_absent.
  - unfold Fs.existsSync. rewrite unlinked_file_absent.
    rewrite bool_decide_eq_false_2 by (by intros [? ?]). cbn [orb].
    apply unlinked_isDirectory.
  - intros q Hq. unfold afterUnlink.
    destruct (Fs.existsSync _ _); cbn [fst]; [|done].
    unfold Fs.unlink. by rewrite lookup_delete_ne.
Qed.

(** An instance: the delete of the one record of [onePhoto]. *)
Lemma delete_removes_record_and_file_witness :
  ∃ l1 photo l2,
    photos onePhoto = l1 ++ photo :: l2
    ∧ (1700000000000 ∉ id <$> l1) ∧ id photo = 1700000000000
    ∧ let r := deletePhoto backendConfig onePhoto (Js.toString 1700000000000)
                           Fs.UnlinkOk in
      r.1 = json (Message true "Photo deleted successfully")
      ∧ photos r.2 = l1 ++ l2
      ∧ console r.2 = console onePhoto
      ∧ Fs.readFile (disk r.2) (recordTarget backendConfig photo) = None
      ∧ Fs.existsSync (disk r.2) (recordTarget backendConfig photo)
        = Fs.isDirectory (disk onePhoto) (recordTarget backendConfig photo)
      ∧ ∀ q, q ≠ Path.segments (recordTarget backendConfig photo) →
             disk r.2 !! q = disk onePhoto !! q.
Proof.
  apply (delete_removes_record_and_file backendConfig onePhoto 1700000000000).
  vm_compute. left.
Defined.

(** X7: after an accepted upload whose id no earlier record has and at
    whose path no directory is, and the delete of that id, the list of
    photos is as before the upload, and the url of the upload answers 404
    when the unlink succeeds; when the unlink fails, the photo is gone from
    the list but the fetch route still sends its bytes.  (The server runs
    in its own directory, which [sendFile] serves from.) *)
Theorem fetch_after_delete (cfg : Config) (st : State) (p : Multer.Part)
    (env : UploadEnv) (outcome : Fs.UnlinkOutcome) :
  cwd cfg = dirname cfg →
  dotFree (dirname cfg) →
  accepted p env →
  (nowId env ∉ id <$> photos st) →
  Fs.isDirectory (disk st) (Path.mk (uploadTarget cfg env) false) = false →
  let uploaded := (postUpload cfg st (Some p) env).2 in
  let deleted :=
    (deletePhoto cfg uploaded (Js.toString (nowId env)) outcome).2 in
  listedViews (getPhotos deleted).1 = listedViews (getPhotos st).1
  ∧ (getPhoto cfg deleted (uploaded_filename (uploadedView env))).1
    = match outcome with
      | Fs.UnlinkOk =>
          {| status := 404; body := Message false "Photo not found" |}
      | Fs.UnlinkError _ =>
          {| status := 200; body := SentFile (Multer.part_content p) |}
      end.
Proof.
  intros Hcwd Hdir Hacc Hid Hnodir uploaded deleted. subst uploaded deleted.
  rewrite delete_after_upload by done. cbn [snd]. split; [done|].
  cbn [uploadedView uploaded_filename].
  rewrite getPhoto_plain;
    [|apply storageFilename_plain|apply storageFilename_not_up|done].
  cbn [fst disk].
  replace (uploadsDir cfg ++ [storageFilename (nowFilename env) (random env)])
    with (uploadTarget cfg env)
    by (unfold uploadTarget;
        by rewrite uploadsDir_segments, Hcwd, <- app_assoc).
  destruct outcome.
  - rewrite lookup_delete_eq.
    assert (Fs.isDirectory (delete (uploadTarget cfg env) (disk st))
                           (Path.mk (uploadTarget cfg env) false)
            = Fs.isDirectory (disk st) (Path.mk (uploadTarget cfg env) false))
      as ->; [|by rewrite Hnodir].
    apply isDirectory_delete. by intros [_ ?].
  - by rewrite lookup_insert_eq.
Qed.

(** An instance: the unlink fails with EACCES. *)
Lemma fetch_after_delete_witness :
  let env := uploadAt 1700000000000 42 in
  let uploaded := (postUpload backendConfig (initial ∅) (Some jpegPart) env).2 in
  let deleted :=
    (deletePhoto backendConfig uploaded "1700000000000"
                 (Fs.UnlinkError "EACCES: permission denied, unlink")).2 in
  listedViews (getPhotos deleted).1 = []
  ∧ (getPhoto backendConfig deleted "photo-1700000000000-42.jpg").1
    = {| status := 200; body := SentFile (Multer.part_content jpegPart) |}.
Proof.
  intros env uploaded deleted.
  assert (nowId env ∉ id <$> photos (initial (∅ : gmap _ _))) as Hid
    by (intros H; by apply elem_of_nil in H).
  exact (fetch_after_delete backendConfig (initial ∅) jpegPart env
           (Fs.UnlinkError "EACCES: permission denied, unlink")
           eq_refl backendConfig_dotFree (jpegPart_accepted _ _) Hid eq_refl).
Defined.

(** ** Dotfiles *)

(** X8: the fetch route sends nothing for a name that starts with a dot.
    For a name of one segment that starts with a dot (other than [..]):
    when a file or a directory of that name is in the uploads directory,
    the answer is 500, with the message "Forbidden" when a segment of the
    path goes up (as the name [..\x] does) and "Not Found" otherwise; when
    nothing of that name is there, the answer is 404 "Photo not found".
    The state is as before. *)
Theorem dotfile_is_never_sent (cfg : Config) (st : State) (name : string) :
  isDotfile name = true →
  name ≠ ".." →
  "/"%char ∉ list_ascii_of_string name →
  let target := uploadsDir cfg ++ [name] in
  getPhoto cfg st name
  = (if Fs.existsSync (disk st) (Path.mk target false)
     then {| status := 500;
             body := Message false (if existsb isUpPath target
                                    then "Forbidden" else "Not Found") |}
     else {| status := 404; body := Message false "Photo not found" |}, st).
Proof.
  intros Hdot Hup Hslash target. subst target.
  assert (Path.joinDir (uploadsDir cfg) name
          = Path.mk (uploadsDir cfg ++ [name]) false) as Hjoin.
  { unfold Path.joinDir.
    rewrite endsWithSlash_no_slash, split_no_slash by done.
    unfold Path.normalizeSegments, Path.pushSegment. cbn [foldl].
    destruct (decide (name = "" ∨ name = ".")) as [[->| ->]|_]; [done..|].
    by rewrite decide_False. }
  unfold getPhoto. rewrite Hjoin.
  destruct (Fs.existsSync _ _); [|done].
  unfold sendFile. cbn [Path.trailing Path.segments].
  destruct (existsb isUpPath _); [done|].
  rewrite existsb_app. cbn [existsb]. by rewrite Hdot, orb_true_r.
Qed.

(** An instance: a file [.env], a directory [.cache] and a file [..\x] in
    the uploads directory, and [.env] with nothing there. *)
Lemma dotfile_is_never_sent_witness :
  let st := initial dotDisk in
  getPhoto backendConfig st ".env"
  = ({| status := 500; body := Message false "Not Found" |}, st)
  ∧ getPhoto backendConfig st ".cache"
    = ({| status := 500; body := Message false "Not Found" |}, st)
  ∧ getPhoto backendConfig st "..\x"
    = ({| status := 500; body := Message false "Forbidden" |}, st)
  ∧ getPhoto backendConfig (initial ∅) ".env"
    = ({| status := 404; body := Message false "Photo not found" |}, initial ∅).
Proof.
  intros st.
  assert ("/"%char ∉ list_ascii_of_string ".env") as Henv
    by (simpl; not_in_literal).
  assert ("/"%char ∉ list_ascii_of_string ".cache") as Hcache
    by (simpl; not_in_literal).
  assert ("/"%char ∉ list_ascii_of_string "..\x") as Hx
    by (simpl; not_in_literal).
  split; [|split; [|split]].
  - exact (dotfile_is_never_sent backendConfig st ".env" eq_refl
             ltac:(discriminate) Henv).
  - exact (dotfile_is_never_sent backendConfig st ".cache" eq_refl
             ltac:(discriminate) Hcache).
  - exact (dotfile_is_never_sent backendConfig st "..\x" eq_refl
             ltac:(discriminate) Hx).
  - exact (dotfile_is_never_sent backendConfig (initial ∅) ".env" eq_refl
             ltac:(discriminate) Henv).
Defined.

(** ** The list after an upload *)

(** X9: after an accepted upload the list is the list before with one
    photo more at its end: the photo that the upload response describes
    (same id, file name, url and timestamp), under the original name of the
    part. *)
Theorem uploaded_photo_is_listed_last (cfg : Config) (st : State)
    (p : Multer.Part) (env : UploadEnv) :
  accepted p env →
  let r := postUpload cfg st (Some p) env in
  ∃ photo,
    r.1 = json (Uploaded true "Photo uploaded successfully" photo)
    ∧ uploaded_url photo = photoUrl (uploaded_filename photo)
    ∧ listedViews (getPhotos r.2).1
      = listedViews (getPhotos st).1
        ++ [{| view_id := uploaded_id photo;
               view_filename := uploaded_filename photo;
               view_originalName := Multer.part_originalname p;
               view_url := uploaded_url photo;
               view_timestamp := uploaded_timestamp photo |}].
Proof.
  intros Hacc r. subst r. exists (uploadedView env).
  rewrite postUpload_accepted by done. repeat split.
  cbn [getPhotos fst snd listedViews body json photos].
  by rewrite fmap_app.
Qed.

(** An instance: a second upload. *)
Lemma uploaded_photo_is_listed_last_witness :
  let r := postUpload backendConfig onePhoto (Some jpegPart)
                      (uploadAt 1700000000001 7) in
  ∃ photo,
    r.1 = json (Uploaded true "Photo uploaded successfully" photo)
    ∧ uploaded_url photo = photoUrl (uploaded_filename photo)
    ∧ listedViews (getPhotos r.2).1
      = listedViews (getPhotos onePhoto).1
        ++ [{| view_id := uploaded_id photo;
               view_filename := uploaded_filename photo;
               view_originalName := Multer.part_originalname jpegPart;
               view_url := uploaded_url photo;
               view_timestamp := uploaded_timestamp photo |}].
Proof.
  exact (uploaded_photo_is_listed_last backendConfig onePhoto jpegPart
           (uploadAt 1700000000001 7) (jpegPart_accepted _ _)).
Defined.

(** ** Counting *)

Section Counting.

Context (cfg : Config).

Lemma postUpload_count (st : State) (part : option Multer.Part)
    (env : UploadEnv) :
  let r := postUpload cfg st part env in
  length (photos r.2)
  = (length (photos st) + if (status r.1 =? 200)%Z then 1 else 0)%nat.
Proof.
  intros r. subst r.
  destruct (postUpload_cases part env)
    as [->|[(p & -> & Himg)|[(p & msg & residue & -> & Himg & Hw)
       |[(p & -> & Himg & Hw & Hbig)|(p & -> & Hacc)]]]].
  - rewrite postUpload_no_file. cbn. lia.
  - rewrite postUpload_filtered by done. cbn. lia.
  - rewrite (postUpload_write_error cfg st p env msg residue) by done.
    cbn. lia.
  - rewrite postUpload_too_large by done. cbn. lia.
  - rewrite postUpload_accepted by done. cbn [fst snd photos status json].
    rewrite length_app. cbn. lia.
Qed.

Lemma deletePhoto_count (st : State) (idParam : string)
    (outcome : Fs.UnlinkOutcome) :
  let r := deletePhoto cfg st idParam outcome in
  (length (photos r.2) + if (status r.1 =? 200)%Z then 1 else 0)%nat
  = length (photos st).
Proof.
  intros r. subst r.
  destruct (deletePhoto_cases cfg st idParam outcome)
    as [->|(l1 & photo & l2 & Hl & _ & _ & ->)].
  - cbn. lia.
  - cbn [fst snd photos status json]. rewrite Hl, !length_app. cbn. lia.
Qed.

Lemma run_count (reqs : list Request) (st : State) :
  (length (photos (run cfg st reqs))
   + count deleteSucceeded (transcript cfg st reqs)
   = length (photos st) + count uploadSucceeded (transcript cfg st reqs))%nat.
Proof.
  revert st. induction reqs as [|req reqs IH]; intros st; [done|].
  rewrite run_cons. cbn [transcript]. specialize (IH (handle cfg st req).2).
  unfold count in *. cbn [List.filter].
  unfold uploadSucceeded at 1, deleteSucceeded at 1. cbn [fst snd].
  destruct req as [|part env|name|idParam outcome]; cbn [handle] in *.
  - exact IH.
  - pose proof (postUpload_count st part env) as H. cbv zeta in H.
    destruct (status _ =? 200); cbn [length]; lia.
  - replace (getPhoto cfg st name).2 with st in *
      by (unfold getPhoto; by destruct (Fs.existsSync _ _)).
    exact IH.
  - pose proof (deletePhoto_count st idParam outcome) as H. cbv zeta in H.
    destruct (status _ =? 200); cbn [length]; lia.
Qed.

End Counting.

(** X10: after any run, the number of photos in the index is the number
    before, plus the uploads of the run that were answered 200, minus its
    deletes that were answered 200; the info route reports that number as
    [totalPhotos], the list route as [count], and it is the length of the
    list. *)
Theorem photo_count_is_uploads_minus_deletes (cfg : Config) (st : State)
    (reqs : list Request) (nodeEnv : option string) :
  let st' := run cfg st reqs in
  let total := info_totalPhotos (info_data (getInfo cfg st' nodeEnv).1) in
  (total + count deleteSucceeded (transcript cfg st reqs)
   = length (photos st) + count uploadSucceeded (transcript cfg st reqs))%nat
  ∧ listedCount (getPhotos st').1 = total
  ∧ length (listedViews (getPhotos st').1) = total.
Proof.
  intros st' total. subst st' total.
  cbn [getInfo fst info_data info_totalPhotos].
  split; [apply run_count|]. split; [done|].
  cbn [getPhotos fst listedViews body json]. apply length_fmap.
Qed.

(** ** Ids *)

Lemma Sorted_lt_NoDup (l : list Z) : Sorted Z.lt l → NoDup l.
Proof.
  intros Hs. apply Sorted_StronglySorted in Hs; [|apply _].
  induction Hs as [|x l _ IH Hx]; constructor; [|done].
  intros Hin. rewrite Forall_forall in Hx. specialize (Hx x Hin). lia.
Qed.

Lemma filter_absent {A} (f : A → Z) (n : Z) (l : list A) :
  (n ∉ f <$> l) → filter (λ x, f x = n) l = [].
Proof.
  induction l as [|x l IH]; intros Hn; [done|].
  rewrite fmap_cons in Hn. apply not_elem_of_cons in Hn as [Hx Hl].
  rewrite filter_cons_False by done. by apply IH.
Qed.

Lemma NoDup_fmap_filter_le {A} (f : A → Z) (n : Z) (l : list A) :
  NoDup (f <$> l) → (length (filter (λ x, f x = n) l) ≤ 1)%nat.
Proof.
  induction l as [|x l IH]; intros Hnd; [cbn; lia|].
  rewrite fmap_cons in Hnd. apply NoDup_cons in Hnd as [Hx Hnd].
  destruct (decide (f x = n)) as [Hfx|Hfx].
  - rewrite filter_cons_True by done. cbn [length].
    rewrite filter_absent by by rewrite <- Hfx. cbn. lia.
  - rewrite filter_cons_False by done. by apply IH.
Qed.

(** X11: when the clock readings that the accepted uploads of a run take
    for their ids (the ids of the records that the run creates, in the
    order of their creation) are strictly increasing, no two records of
    the index share an id: every id is the id of at most one record. *)
Theorem ids_distinct_when_clock_advances (cfg : Config)
    (d : gmap (list string) (list byte)) (reqs : list Request) :
  Sorted Z.lt (id <$> created cfg (initial d) reqs) →
  let st := run cfg (initial d) reqs in
  NoDup (id <$> photos st)
  ∧ ∀ n, (length (filter (λ photo, id photo = n) (photos st)) ≤ 1)%nat.
Proof.
  intros Hs st.
  assert (NoDup (id <$> photos st)) as Hnd.
  { refine (sublist_NoDup _ _ (Sorted_lt_NoDup _ Hs) _).
    apply fmap_sublist. apply (run_photos cfg reqs (initial d)). }
  split; [done|]. intros n. by apply NoDup_fmap_filter_le.
Qed.

(** An instance: two accepted uploads one millisecond apart and, between
    them, a rejected one. *)
Lemma ids_distinct_when_clock_advances_witness :
  let st := run backendConfig (initial ∅) rejectedBetween in
  id <$> created backendConfig (initial ∅) rejectedBetween
  = [1700000000005; 1700000000006]
  ∧ id <$> photos st = [1700000000005; 1700000000006]
  ∧ NoDup (id <$> photos st)
  ∧ ∀ n, (length (filter (λ photo, id photo = n) (photos st)) ≤ 1)%nat.
Proof.
  intros st.
  assert (id <$> created backendConfig (initial ∅) rejectedBetween
          = [1700000000005; 1700000000006]) as Hids by (vm_compute; reflexivity).
  split; [exact Hids|]. split; [vm_compute; reflexivity|].
  apply (ids_distinct_when_clock_advances backendConfig ∅ rejectedBetween).
  rewrite Hids. by repeat constructor.
Defined.

(** * Files outside the uploads directory *)


Section Reach.

Lemma split_segment_cons (a b : string) :
  "/"%char ∉ list_ascii_of_string a →
  Path.split (a +:+ String "/" b) = a :: Path.split b.
Proof.
  induction a as [|c a IH]; intros H.
  - done.
  - simpl in H. apply not_elem_of_cons in H as [Hc Ha].
    change (String c a +:+ String "/" b) with (String c (a +:+ String "/" b)).
    cbn [Path.split]. destruct (Ascii.eqb_spec c "/") as [->|_]; [done|].
    by rewrite IH.
Qed.

Lemma split_render (segs : list string) :
  segs ≠ [] →
  Forall (λ s, "/"%char ∉ list_ascii_of_string s) segs →
  Path.split (Path.render segs) = segs.
Proof.
  induction segs as [|s segs IH]; intros Hne Hs; [done|].
  apply Forall_cons in Hs as [Hs Hsegs].
  destruct segs as [|s' segs].
  - by apply split_no_slash.
  - change (Path.render (s :: s' :: segs))
      with (s +:+ String "/" (Path.render (s' :: segs))).
    rewrite split_segment_cons by done. by rewrite IH.
Qed.

Lemma render_nonempty (segs : list string) :
  segs ≠ [] → Forall (λ s, s ≠ "") segs → Path.render segs ≠ "".
Proof.
  destruct segs as [|s segs]; intros Hne Hs; [done|].
  apply Forall_cons in Hs as [Hs _].
  destruct segs as [|s' segs]; [done|].
  change (Path.render (s :: s' :: segs))
    with (s +:+ String "/" (Path.render (s' :: segs))).
  by destruct s.
Qed.

Lemma endsWithSlash_render (segs : list string) :
  segs ≠ [] →
  Forall (λ s, s ≠ "" ∧ "/"%char ∉ list_ascii_of_string s) segs →
  Path.endsWithSlash (Path.render segs) = false.
Proof.
  induction segs as [|s segs IH]; intros Hne Hs; [done|].
  apply Forall_cons in Hs as [[Hs Hslash] Hsegs].
  destruct segs as [|s' segs].
  - by apply endsWithSlash_no_slash.
  - change (Path.render (s :: s' :: segs))
      with (s +:+ "/" +:+ Path.render (s' :: segs)).
    assert (Path.render (s' :: segs) ≠ "") as Hrest.
    { apply render_nonempty; [done|].
      eapply Forall_impl; [exact Hsegs|]. by intros ? [? _]. }
    rewrite endsWithSlash_app by (by destruct (Path.render (s' :: segs))).
    rewrite (endsWithSlash_app "/") by done. by apply IH.
Qed.

(** As many [..] as a directory has segments lead to the root. *)
Lemma normalize_climb (dir : list string) :
  Forall isSegment dir →
  Path.normalizeSegments true dir (replicate (length dir) "..") = [].
Proof.
  induction dir as [|x dir IH] using rev_ind; intros Hdir; [done|].
  apply Forall_app in Hdir as [Hdir Hx].
  apply Forall_cons in Hx as [(_ & _ & Hx & _) _].
  rewrite length_app, Nat.add_comm. cbn [length Nat.add replicate].
  unfold Path.normalizeSegments in *. cbn [foldl].
  unfold Path.pushSegment at 2.
  rewrite decide_False by (by intros [?|?]). rewrite decide_True by done.
  rewrite last_snoc, decide_False by done.
  rewrite removelast_last. by apply IH.
Qed.

Lemma normalize_plain (dir q : list string) :
  Forall plain q → Path.normalizeSegments true dir q = dir ++ q.
Proof.
  revert dir. induction q as [|s q IH]; intros dir Hq.
  - by rewrite app_nil_r.
  - apply Forall_cons in Hq as [Hs Hq]. unfold Path.normalizeSegments in *.
    cbn [foldl]. rewrite pushSegment_plain, IH by done.
    by rewrite <- app_assoc.
Qed.

Lemma joinDir_climb (dir q : list string) :
  dir ≠ [] →
  Forall isSegment dir →
  Forall plain q →
  Path.joinDir dir (climb dir q) = Path.mk q false.
Proof.
  intros Hne Hdir Hq. unfold Path.joinDir, climb.
  assert (replicate (length dir) ".." ++ q ≠ []) as Hsegs
    by (destruct dir; done).
  assert (Forall (λ s, s ≠ "" ∧ "/"%char ∉ list_ascii_of_string s)
                 (replicate (length dir) ".." ++ q)) as Hall.
  { apply Forall_app. split.
    - apply Forall_replicate. split; [done|]. simpl. not_in_literal.
    - eapply Forall_impl; [exact Hq|]. by intros s (? & _ & ?). }
  rewrite split_render, endsWithSlash_render; [|done..| |].
  - pose proof (normalize_climb dir Hdir) as Hclimb.
    pose proof (normalize_plain [] q Hq) as Hdown.
    unfold Path.normalizeSegments in *. rewrite foldl_app, Hclimb.
    by rewrite Hdown.
  - done.
  - eapply Forall_impl; [exact Hall|]. by intros s [_ ?].
Qed.

Lemma decodeURIComponent_escapeSegment (s : string) :
  Js.decodeURIComponent (escapeSegment s) = Some s.
Proof.
  induction s as [|c s IH]; [done|].
  assert (Js.decodeURIComponent (escapeSegment (String c s))
          = String c <$> Js.decodeURIComponent (escapeSegment s)) as ->.
  { destruct c as [[] [] [] [] [] [] [] []]; reflexivity. }
  by rewrite IH.
Qed.

(** What an escaped string is made of. *)
Lemma escapeSegment_chars (s : string) :
  Forall (λ c, isUnreserved c || Ascii.eqb c "%" = true)
         (list_ascii_of_string (escapeSegment s)).
Proof.
  induction s as [|c s IH]; [constructor|].
  destruct c as [[] [] [] [] [] [] [] []];
    cbn [escapeSegment isUnreserved]; simpl; by repeat constructor.
Qed.

Lemma escapeSegment_avoids (s : string) (c : ascii) :
  isUnreserved c || Ascii.eqb c "%" = false →
  c ∉ list_ascii_of_string (escapeSegment s).
Proof.
  intros Hc Hin. pose proof (escapeSegment_chars s) as H.
  rewrite Forall_forall in H. apply H in Hin. congruence.
Qed.

Lemma escapeSegment_nonempty (s : string) : s ≠ "" → escapeSegment s ≠ "".
Proof.
  destruct s as [|c s]; [done|]. intros _. cbn [escapeSegment].
  by destruct (isUnreserved c).
Qed.

End Reach.

(** X12: the fetch route serves every file of the disk that [sendFile]
    does not refuse.  For a file whose path has only plain segments (none
    starting with a dot) that do not go up and are made of ASCII
    characters, the file name that climbs with [..] from the uploads
    directory to the root and descends to the file is answered with the
    bytes of the file; the url [/api/photos/] followed by that name,
    escaped as [encodeURIComponent] escapes it, has that name as its route
    parameter. *)
Theorem getPhoto_reaches_every_file (cfg : Config) (st : State)
    (q : list string) (content : list byte) :
  Forall isSegment (dirname cfg) →
  Forall plain q →
  Forall (λ seg, isUpPath seg = false) q →
  Forall asciiName q →
  disk st !! q = Some content →
  let name := climb (uploadsDir cfg) q in
  photoRouteParam ("/api/photos/" +:+ escapeSegment name) = Some name
  ∧ getPhoto cfg st name
    = ({| status := 200; body := SentFile content |}, st).
Proof.
  intros Hdir Hq Hup Hascii Hfile name.
  assert (uploadsDir cfg ≠ []) as Hne
    by (rewrite uploadsDir_segments; by destruct (dirname cfg)).
  assert (Forall isSegment (uploadsDir cfg)) as Hupl.
  { rewrite uploadsDir_segments. apply Forall_app. split; [done|].
    constructor; [|done]. repeat split; try done. simpl. not_in_literal. }
  split.
  - rewrite photoRouteParam_one_segment.
    + apply decodeURIComponent_escapeSegment.
    + apply escapeSegment_nonempty. subst name. unfold climb.
      apply render_nonempty; [by destruct (uploadsDir cfg)|].
      apply Forall_app. split; [by apply Forall_replicate|].
      eapply Forall_impl; [exact Hq|]. by intros s (? & _).
    + by apply escapeSegment_avoids.
    + by apply escapeSegment_avoids.
    + by apply escapeSegment_avoids.
  - unfold getPhoto, sendFile, Fs.existsSync, Fs.readFile. subst name.
    rewrite joinDir_climb by done. cbn [Path.trailing Path.segments].
    rewrite Hfile. rewrite bool_decide_eq_true_2 by by eexists.
    cbn [orb].
    destruct (dotFree_existsb q) as [-> ->]; [|done].
    unfold dotFree. rewrite Forall_forall in Hq, Hup. apply Forall_forall.
    intros seg Hin. split; [|by apply Hup].
    by apply plain_not_dotfile, Hq.
Qed.

(** An instance: the file /etc/passwd. *)
Lemma getPhoto_reaches_every_file_witness :
  let st := initial systemDisk in
  climb (uploadsDir backendConfig) ["etc"; "passwd"]
  = "../../../../etc/passwd"
  ∧ photoRouteParam "/api/photos/..%2F..%2F..%2F..%2Fetc%2Fpasswd"
    = Some "../../../../etc/passwd"
  ∧ getPhoto backendConfig st "../../../../etc/passwd"
    = ({| status := 200;
          body := SentFile ["114"; "111"; "111"; "116"]%byte |}, st).
Proof.
  intros st. split; [reflexivity|].
  assert (Forall isSegment (dirname backendConfig)) as Hdir.
  { repeat constructor; try done; simpl; not_in_literal. }
  assert (Forall plain ["etc"; "passwd"]) as Hq.
  { repeat constructor; try done; simpl; not_in_literal. }
  assert (Forall (λ seg, isUpPath seg = false) ["etc"; "passwd"]) as Hup
    by (by repeat constructor).
  assert (Forall asciiName ["etc"; "passwd"]) as Hascii.
  { repeat constructor; simpl; lia. }
  exact (getPhoto_reaches_every_file backendConfig st ["etc"; "passwd"]
           ["114"; "111"; "111"; "116"]%byte Hdir Hq Hup Hascii eq_refl).
Defined.

(** * The client *)


Section Client.

Lemma call_url (m : Api.Method) (rel : string) (form : option Multer.Part) :
  rel ≠ "" →
  Api.url (Api.call m rel form)
  = "http://localhost:3001/api/" +:+ Api.dropLeadingSlashes rel.
Proof.
  intros Hrel. unfold Api.call, Api.combineURLs. cbn [Api.url].
  by rewrite decide_False.
Qed.

Lemma deletePhoto_path (x : Id) :
  backendPath (Api.url (Api.deletePhoto x))
  = Some ("/api/photos/" +:+ idToString x).
Proof.
  unfold Api.deletePhoto. rewrite call_url by done.
  change ("/photos/" +:+ idToString x)
    with (String "/" ("photos/" +:+ idToString x)).
  change (Api.dropLeadingSlashes (String "/" ("photos/" +:+ idToString x)))
    with ("photos/" +:+ idToString x).
  unfold backendPath.
  change ("http://localhost:3001/api/" +:+ "photos/" +:+ idToString x)
    with ("http://localhost:3001" +:+ "/api/photos/" +:+ idToString x).
  apply dropPrefix_app.
Qed.

(** The route parameter of the path of a numeral is the numeral. *)
Lemma photoRouteParam_toString (n : Z) :
  photoRouteParam ("/api/photos/" +:+ Js.toString n) = Some (Js.toString n).
Proof.
  pose proof (toString_numeral n) as Hn. rewrite Forall_forall in Hn.
  rewrite photoRouteParam_one_segment.
  - apply decodeURIComponent_no_escape. intros H. by apply Hn in H.
  - apply toString_nonempty.
  - intros H. by apply Hn in H.
  - intros H. by apply Hn in H.
  - intros H. by apply Hn in H.
Qed.

Lemma resolves_200 (b : Body) : resolves (Some (json b)) = Some (json b).
Proof. unfold resolves. by rewrite decide_True. Qed.

Lemma markUploaded_other (tempId : Id) (photo : UploadedView)
    (l : list Camera.Photo) :
  (tempId ∉ Camera.photo_id <$> l) →
  Camera.markUploaded tempId photo <$> l = l.
Proof.
  induction l as [|p l IH]; intros H; [done|].
  rewrite fmap_cons in H. apply not_elem_of_cons in H as [Hp Hl].
  rewrite fmap_cons, IH by done. unfold Camera.markUploaded.
  by rewrite decide_False.
Qed.

Lemma hasServerId_number (l : list Camera.Photo) (n : Z) :
  n ≠ 0 →
  Forall (λ p, ∀ m, Camera.photo_id p = IdNumber m
                    → Camera.photo_serverId p = Some m) l →
  IdNumber n ∈ Camera.photo_id <$> l →
  Camera.hasServerId l (IdNumber n) = true.
Proof.
  intros Hn Hl Hin. unfold Camera.hasServerId.
  apply list_elem_of_fmap in Hin as (p & Hp & Hin).
  destruct (list_find (λ p, Camera.photo_id p = IdNumber n) l)
    as [[i q]|] eqn:E.
  - apply list_find_Some in E as (Hi & Hq & _).
    rewrite Forall_forall in Hl.
    rewrite (Hl q (list_elem_of_lookup_2 _ _ _ Hi) n Hq).
    by apply negb_true_iff, Z.eqb_neq.
  - apply list_find_None in E. rewrite Forall_forall in E.
    by destruct (E p Hin).
Qed.

Lemma filter_removes_id (l : list Camera.Photo) (x : Id) :
  x ∉ Camera.photo_id <$> filter (λ p, Camera.photo_id p ≠ x) l.
Proof.
  intros (p & -> & Hin)%list_elem_of_fmap.
  apply list_elem_of_filter in Hin as [Hp _]. done.
Qed.

End Client.

(** ** The client and the server *)

Lemma photoRouteParam_segment (s : string) :
  s ≠ "" →
  Forall (λ c, c ≠ "/"%char ∧ c ≠ "%"%char ∧ c ≠ "?"%char ∧ c ≠ "#"%char)
         (list_ascii_of_string s) →
  photoRouteParam ("/api/photos/" +:+ s) = Some s.
Proof.
  intros Hs Hchars. rewrite Forall_forall in Hchars.
  rewrite photoRouteParam_one_segment; [|done|..].
  - apply decodeURIComponent_no_escape. intros H.
    by destruct (Hchars _ H) as (_ & ? & _).
  - intros H. by destruct (Hchars _ H) as (? & _).
  - intros H. by destruct (Hchars _ H) as (_ & _ & ? & _).
  - intros H. by destruct (Hchars _ H) as (_ & _ & _ & ?).
Qed.

Lemma tempId_chars (now : Z) :
  idToString (Camera.tempId now) = String "t" ("emp-" +:+ Js.toString now)
  ∧ Forall (λ c, c ≠ "/"%char ∧ c ≠ "%"%char ∧ c ≠ "?"%char ∧ c ≠ "#"%char)
           (list_ascii_of_string (idToString (Camera.tempId now))).
Proof.
  split; [done|]. cbn [idToString Camera.tempId]. rewrite chars_app.
  apply Forall_app. split; [by repeat constructor|].
  eapply Forall_impl; [apply toString_numeral|].
  intros c Hc. repeat split; by intros ->.
Qed.

(** X13: the call that the client makes to delete the photo with the
    number [n] as its id is a DELETE of a path whose route parameter the
    server reads, with [parseInt], as [n].  The path for a temporary id
    [temp-<clock>] has a parameter from which the server reads no number. *)
Theorem client_delete_names_the_id (n now : Z) :
  Api.method (Api.deletePhoto (IdNumber n)) = Api.DELETE
  ∧ (backendPath (Api.url (Api.deletePhoto (IdNumber n)))
       ≫= photoRouteParam) ≫= Js.parseInt
    = Some n
  ∧ (backendPath (Api.url (Api.deletePhoto (Camera.tempId now)))
       ≫= photoRouteParam) ≫= Js.parseInt
    = None.
Proof.
  split; [done|]. rewrite !deletePhoto_path. cbn [mbind option_bind].
  split.
  - cbn [idToString]. rewrite photoRouteParam_toString. cbn [mbind option_bind].
    apply parseInt_toString.
  - destruct (tempId_chars now) as [Hid Hchars].
    rewrite photoRouteParam_segment.
    + cbn [mbind option_bind]. by rewrite Hid.
    + by rewrite Hid.
    + done.
Qed.

(** X14: a photo that the client takes and uploads, end to end.  The blob
    of the canvas is an image of less than 10 MiB, the write on the server
    succeeds, and no photo of the list has the temporary id of this photo.
    The client calls POST /api/upload with the blob as the part [photo]
    under the name [photo-<clock>.jpg]; the server appends the record of
    that part; and the list of the client then starts with the photo under
    the id and the url that the server gave, no longer uploading, the
    photos behind it being as before. *)
Theorem client_upload_end_to_end (cfg : Config) (st : State)
    (ui : Camera.Ui) (now : Z) (photoDataUrl : string) (stamp : Z)
    (blob : Api.Blob) (now' : Z) (env : UploadEnv) :
  Js.startsWith (Api.blob_type blob) "image/" = true →
  (N.of_nat (length (Api.blob_bytes blob)) < 10 * 1024 * 1024)%N →
  write env = Fs.WriteOk →
  (Camera.tempId now ∉ Camera.photo_id <$> Camera.ui_photos ui) →
  ∃ call,
    Camera.uploadCall (Some blob) now' = Some call
    ∧ Api.method call = Api.POST
    ∧ backendPath (Api.url call) = Some "/api/upload"
    ∧ let name := storageFilename (nowFilename env) (random env) in
      let taken := Camera.takePhoto ui now photoDataUrl stamp in
      let r := postUpload cfg st (Api.formData call) env in
      let ui' := Camera.uploadPhotoToServer taken (Camera.tempId now)
                   (Camera.uploadedPhoto (Some r.1)) in
      photos r.2
      = photos st
        ++ [{| id := nowId env;
               filename := name;
               originalName := "photo-" +:+ Js.toString now' +:+ ".jpg";
               path := "uploads/" +:+ name;
               size := N.of_nat (length (Api.blob_bytes blob));
               mimetype := Api.blob_type blob;
               timestamp := nowTimestamp env |}]
      ∧ Camera.ui_photos ui'
        = {| Camera.photo_id := IdNumber (nowId env);
             Camera.photo_data := Some photoDataUrl;
             Camera.photo_timestamp := stamp;
             Camera.photo_isUploading := Some false;
             Camera.photo_serverId := Some (nowId env);
             Camera.photo_url := Some ("/api/photos/" +:+ name);
             Camera.photo_uploadFailed := None;
             Camera.photo_filename := None |}
          :: Camera.ui_photos ui
      ∧ Camera.ui_error ui' = Camera.ui_error ui
      ∧ Camera.ui_uploading ui' = false.
Proof.
  intros Himg Hsize Hw Hfresh.
  assert (Api.blob_type blob ≠ "") as Htype by (by intros E; rewrite E in Himg).
  eexists. split; [reflexivity|]. split; [reflexivity|].
  split; [reflexivity|].
  intros name taken r ui'. subst taken r ui'.
  cbn [Api.formData Api.call]. rewrite decide_False by done.
  rewrite postUpload_accepted by done.
  cbn [fst snd photos]. split; [done|].
  unfold Camera.uploadedPhoto. rewrite resolves_200. cbn [body json].
  unfold Camera.uploadPhotoToServer, Camera.takePhoto, Camera.setPhotos,
    Camera.setUploading.
  cbn [Camera.ui_photos Camera.ui_error Camera.ui_uploading].
  repeat split. rewrite fmap_cons, markUploaded_other by done.
  unfold Camera.markUploaded, Camera.tempPhoto. cbn [Camera.photo_id].
  by rewrite decide_True.
Qed.

(** An instance: the first photo of a client, on the empty server. *)
Lemma client_upload_end_to_end_witness :
  ∃ call,
    Camera.uploadCall (Some canvasBlob) 1700000000001 = Some call
    ∧ Api.method call = Api.POST
    ∧ backendPath (Api.url call) = Some "/api/upload"
    ∧ let name := "photo-1700000000002-42.jpg" in
      let taken := Camera.takePhoto Camera.mounted 1700000000000
                                    "data:image/jpeg;base64,/9j/4A==" 1700000000000 in
      let r := postUpload backendConfig (initial ∅) (Api.formData call)
                          (uploadAt 1700000000002 42) in
      let ui' := Camera.uploadPhotoToServer taken (Camera.tempId 1700000000000)
                   (Camera.uploadedPhoto (Some r.1)) in
      photos r.2
      = [{| id := 1700000000002;
            filename := name;
            originalName := "photo-1700000000001.jpg";
            path := "uploads/" +:+ name;
            size := 4;
            mimetype := "image/jpeg";
            timestamp := 1700000000002 |}]
      ∧ Camera.ui_photos ui'
        = [{| Camera.photo_id := IdNumber 1700000000002;
              Camera.photo_data := Some "data:image/jpeg;base64,/9j/4A==";
              Camera.photo_timestamp := 1700000000000;
              Camera.photo_isUploading := Some false;
              Camera.photo_serverId := Some 1700000000002;
              Camera.photo_url := Some ("/api/photos/" +:+ name);
              Camera.photo_uploadFailed := None;
              Camera.photo_filename := None |}]
      ∧ Camera.ui_error ui' = ""
      ∧ Camera.ui_uploading ui' = false.
Proof.
  assert (Camera.tempId 1700000000000
          ∉ Camera.photo_id <$> Camera.ui_photos Camera.mounted) as Hfresh
    by (intros H; by apply elem_of_nil in H).
  exact (client_upload_end_to_end backendConfig (initial ∅) Camera.mounted
           1700000000000 "data:image/jpeg;base64,/9j/4A==" 1700000000000
           canvasBlob 1700000000001 (uploadAt 1700000000002 42)
           eq_refl eq_refl eq_refl Hfresh).
Defined.

(** X15: the delete of a photo on the client, end to end.  The photo has
    the number [n], not 0, as its id, and the photos of the list that have a
    number as their id have it as their [serverId].  The client calls
    DELETE on a path from which the server reads [n].  When the server has
    a record with that id, it removes the first one, and the client drops
    the photos with that id from its list.  When the server has none, it
    answers 404 and changes nothing, and the client keeps its list and shows
    the error 'Failed to delete photo'. *)
Theorem client_delete_end_to_end (cfg : Config) (st : State)
    (ui : Camera.Ui) (n : Z) (outcome : Fs.UnlinkOutcome) :
  n ≠ 0 →
  Forall (λ p, ∀ m, Camera.photo_id p = IdNumber m
                    → Camera.photo_serverId p = Some m)
         (Camera.ui_photos ui) →
  IdNumber n ∈ Camera.photo_id <$> Camera.ui_photos ui →
  ∃ call idParam,
    Camera.deleteCall ui (IdNumber n) = Some call
    ∧ Api.method call = Api.DELETE
    ∧ backendPath (Api.url call) ≫= photoRouteParam = Some idParam
    ∧ Js.parseInt idParam = Some n
    ∧ let r := deletePhoto cfg st idParam outcome in
      let ui' := Camera.deletePhoto ui (IdNumber n) (Some r.1) in
      if decide (n ∈ id <$> photos st)
      then (∃ l1 photo l2,
              photos st = l1 ++ photo :: l2
              ∧ (n ∉ id <$> l1) ∧ id photo = n
              ∧ photos r.2 = l1 ++ l2)
           ∧ Camera.ui_photos ui'
             = filter (λ p, Camera.photo_id p ≠ IdNumber n)
                      (Camera.ui_photos ui)
           ∧ (IdNumber n ∉ Camera.photo_id <$> Camera.ui_photos ui')
           ∧ Camera.ui_error ui' = Camera.ui_error ui
      else r.2 = st
           ∧ Camera.ui_photos ui' = Camera.ui_photos ui
           ∧ Camera.ui_error ui' = "Failed to delete photo".
Proof.
  intros Hn Hlinked Hin.
  pose proof (hasServerId_number _ n Hn Hlinked Hin) as Hserver.
  exists (Api.deletePhoto (IdNumber n)), (Js.toString n).
  split; [unfold Camera.deleteCall; by rewrite Hserver|].
  split; [done|].
  split; [rewrite deletePhoto_path; apply photoRouteParam_toString|].
  split; [apply parseInt_toString|].
  intros r ui'. subst r ui'. unfold Camera.deletePhoto. rewrite Hserver.
  case_decide as Hpresent.
  - destruct (present_first_match n (photos st) Hpresent)
      as (l1 & photo & l2 & Hl & H1 & Hid).
    rewrite (deletePhoto_toString cfg st n outcome l1 l2 photo) by done.
    cbn [fst snd photos]. rewrite resolves_200.
    split; [by exists l1, photo, l2|].
    cbn [Camera.setPhotos Camera.ui_photos Camera.ui_error].
    split; [done|]. split; [apply filter_removes_id|done].
  - rewrite deletePhoto_absent
      by (rewrite parseInt_toString; by apply no_match_not_elem).
    cbn [fst snd]. unfold resolves. cbn [status].
    rewrite decide_False by lia. done.
Qed.

(** An instance: the client deletes the one photo of [onePhoto]. *)
Lemma client_delete_end_to_end_witness :
  Camera.photo_id <$> Camera.ui_photos loadedOnePhoto
  = [IdNumber 1700000000000]
  ∧ ∃ call idParam,
      Camera.deleteCall loadedOnePhoto (IdNumber 1700000000000) = Some call
      ∧ Api.method call = Api.DELETE
      ∧ backendPath (Api.url call) ≫= photoRouteParam = Some idParam
      ∧ Js.parseInt idParam = Some 1700000000000
      ∧ let r := deletePhoto backendConfig onePhoto idParam Fs.UnlinkOk in
        let ui' := Camera.deletePhoto loadedOnePhoto (IdNumber 1700000000000)
                                      (Some r.1) in
        if decide (1700000000000 ∈ id <$> photos onePhoto)
        then (∃ l1 photo l2,
                photos onePhoto = l1 ++ photo :: l2
                ∧ (1700000000000 ∉ id <$> l1) ∧ id photo = 1700000000000
                ∧ photos r.2 = l1 ++ l2)
             ∧ Camera.ui_photos ui'
               = filter (λ p, Camera.photo_id p ≠ IdNumber 1700000000000)
                        (Camera.ui_photos loadedOnePhoto)
             ∧ (IdNumber 1700000000000
                ∉ Camera.photo_id <$> Camera.ui_photos ui')
             ∧ Camera.ui_error ui' = Camera.ui_error loadedOnePhoto
        else r.2 = onePhoto
             ∧ Camera.ui_photos ui' = Camera.ui_photos loadedOnePhoto
             ∧ Camera.ui_error ui' = "Failed to delete photo".
Proof.
  split; [reflexivity|].
  apply (client_delete_end_to_end backendConfig onePhoto loadedOnePhoto
           1700000000000 Fs.UnlinkOk).
  - discriminate.
  - repeat constructor. intros m Hm. vm_compute in Hm. injection Hm as <-.
    reflexivity.
  - vm_compute. left.
Defined.

Section CameraInvariant.

Lemma markUploaded_wellFormed (tempId : Id) (photo : UploadedView)
    (p : Camera.Photo) :
  wellFormed p → wellFormed (Camera.markUploaded tempId photo p).
Proof.
  intros Hp. unfold Camera.markUploaded. case_decide; [|done].
  unfold wellFormed. cbn. split; [done|by eexists].
Qed.

Lemma markFailed_wellFormed (tempId : Id) (p : Camera.Photo) :
  wellFormed p → wellFormed (Camera.markFailed tempId p).
Proof. intros Hp. unfold Camera.markFailed. by case_decide. Qed.

Lemma serverPhoto_wellFormed (photo : PhotoView) :
  wellFormed (Camera.serverPhoto photo).
Proof. unfold wellFormed. cbn. split; [done|by eexists]. Qed.

Lemma handle_wellFormed (ui : Camera.Ui) (ev : Camera.Event) :
  Forall wellFormed (Camera.ui_photos ui) →
  Forall wellFormed (Camera.ui_photos (Camera.handle ui ev)).
Proof.
  intros Hui.
  destruct ev as [resolved|failure|now photoDataUrl stamp|tempId photo|views
                  |photoId response| |];
    cbn [Camera.handle].
  - by destruct resolved.
  - by destruct failure.
  - constructor; [|done]. unfold wellFormed. cbn. by eexists.
  - destruct photo as [photo|]; cbn; apply Forall_fmap;
      (eapply Forall_impl; [exact Hui|]); intros p Hp.
    + by apply markUploaded_wellFormed.
    + by apply markFailed_wellFormed.
  - destruct views as [views|]; [|done]. cbn. apply Forall_fmap.
    apply Forall_forall. intros photo _. apply serverPhoto_wellFormed.
  - unfold Camera.deletePhoto.
    assert (Forall wellFormed
              (filter (λ photo, Camera.photo_id photo ≠ photoId)
                      (Camera.ui_photos ui))) as Hfilter
      by (rewrite Forall_forall in Hui; apply Forall_forall;
          intros p [_ Hp]%list_elem_of_filter; by apply Hui).
    destruct (Camera.hasServerId _ _); [|done].
    by destruct (resolves response).
  - constructor.
  - done.
Qed.

Lemma run_wellFormed (evs : list Camera.Event) (ui : Camera.Ui) :
  Forall wellFormed (Camera.ui_photos ui) →
  Forall wellFormed (Camera.ui_photos (Camera.run ui evs)).
Proof.
  revert ui. induction evs as [|ev evs IH]; intros ui Hui; [done|].
  cbn. apply IH. by apply handle_wellFormed.
Qed.

End CameraInvariant.

(** X16: whatever happens to the component, in whatever order and with
    whatever answers of the server, every photo of its list is of one of two
    kinds: a temporary photo, with a string as its id, no [serverId] and its
    data url; or a photo of the server, with the number [serverId] as its
    id and a url.  So the photos with a number as their id are those that
    [deletePhoto] asks the server to delete, under that number. *)
Theorem camera_photos_well_formed (evs : list Camera.Event) :
  let ui := Camera.run Camera.mounted evs in
  Forall wellFormed (Camera.ui_photos ui)
  ∧ Forall (λ p, ∀ m, Camera.photo_id p = IdNumber m
                      → Camera.photo_serverId p = Some m)
           (Camera.ui_photos ui).
Proof.
  intros ui.
  assert (Forall wellFormed (Camera.ui_photos ui)) as Hwf
    by (apply run_wellFormed; constructor).
  split; [done|]. eapply Forall_impl; [exact Hwf|].
  intros p Hp m Hm. unfold wellFormed in Hp. rewrite Hm in Hp.
  destruct (Camera.photo_serverId p); [|done]. by destruct Hp as [-> _].
Qed.

(** X17: the list that the client loads, end to end.  When the server
    runs in its own directory (no directory on the way to it being one
    that [sendFile] refuses) and no two uploads of a run generated the same
    file name, the client that loads the list after the run holds one photo
    for each record of the index, in the order of the index and under the
    id of the record; and the url of each of these photos is a url of the
    backend whose path the fetch route answers with a file. *)
Theorem client_load_end_to_end (cfg : Config)
    (d : gmap (list string) (list byte)) (reqs : list Request)
    (ui : Camera.Ui) :
  cwd cfg = dirname cfg →
  dotFree (dirname cfg) →
  NoDup (nameSeeds reqs) →
  let st := run cfg (initial d) reqs in
  let ui' := Camera.loadPhotosFromServer ui
               (Camera.listedPhotos (Some (getPhotos st).1)) in
  Camera.photo_id <$> Camera.ui_photos ui'
  = (λ photo, IdNumber (id photo)) <$> photos st
  ∧ Forall (λ p, ∃ url name content,
              Camera.photo_url p = Some url
              ∧ Camera.photo_filename p = Some name
              ∧ backendPath url ≫= photoRouteParam = Some name
              ∧ getPhoto cfg st name
                = ({| status := 200; body := SentFile content |}, st))
           (Camera.ui_photos ui').
Proof.
  intros Hcwd Hdir Hnd st ui'. subst ui'.
  unfold Camera.listedPhotos, getPhotos. cbn [fst]. rewrite resolves_200.
  cbn [body json Camera.loadPhotosFromServer Camera.setPhotos
       Camera.ui_photos].
  split.
  - by rewrite <- !list_fmap_compose.
  - rewrite <- list_fmap_compose. apply Forall_fmap.
    eapply Forall_impl; [exact (run_photos_fetchable cfg d reqs Hcwd Hdir Hnd)|].
    intros photo (Hroute & content & Hfetch).
    exists ("http://localhost:3001" +:+ photoUrl (filename photo)),
           (filename photo), content.
    repeat split; [|done]. unfold backendPath. by rewrite dropPrefix_app.
Qed.

(** An instance: the client loads the list after [mixedRun]. *)
Lemma client_load_end_to_end_witness :
  let st := run backendConfig (initial sourceDisk) mixedRun in
  let ui' := Camera.loadPhotosFromServer Camera.mounted
               (Camera.listedPhotos (Some (getPhotos st).1)) in
  Camera.photo_url <$> Camera.ui_photos ui'
  = [Some "http://localhost:3001/api/photos/photo-1700000000002-99.jpg"]
  ∧ Camera.photo_id <$> Camera.ui_photos ui'
    = (λ photo, IdNumber (id photo)) <$> photos st
  ∧ Forall (λ p, ∃ url name content,
              Camera.photo_url p = Some url
              ∧ Camera.photo_filename p = Some name
              ∧ backendPath url ≫= photoRouteParam = Some name
              ∧ getPhoto backendConfig st name
                = ({| status := 200; body := SentFile content |}, st))
           (Camera.ui_photos ui').
Proof.
  intros st ui'. split; [reflexivity|].
  exact (client_load_end_to_end backendConfig sourceDisk mixedRun
           Camera.mounted eq_refl backendConfig_dotFree mixedRun_seeds).
Defined.

Lemma hasServerId_string (l : list Camera.Photo) (s : string) :
  Forall wellFormed l → Camera.hasServerId l (IdString s) = false.
Proof.
  intros Hl. unfold Camera.hasServerId.
  destruct (list_find (λ p, Camera.photo_id p = IdString s) l)
    as [[i q]|] eqn:E; [|done].
  apply list_find_Some in E as (Hi & Hq & _).
  rewrite Forall_forall in Hl.
  pose proof (Hl q (list_elem_of_lookup_2 _ _ _ Hi)) as Hwf.
  unfold wellFormed in Hwf. rewrite Hq in Hwf.
  by destruct (Camera.photo_serverId q).
Qed.

(** X18: a photo under a temporary id (one that is being uploaded, or
    whose upload failed) is deleted on the client alone: whatever has
    happened to the component before, [deletePhoto] with a string as the
    id makes no call to the server and removes the photos with that id
    from the list, leaving the rest of the state as it is. *)
Theorem temporary_photo_is_deleted_locally (evs : list Camera.Event)
    (s : string) (response : option Response) :
  let ui := Camera.run Camera.mounted evs in
  let ui' := Camera.deletePhoto ui (IdString s) response in
  Camera.deleteCall ui (IdString s) = None
  ∧ ui' = Camera.setPhotos ui (filter (λ p, Camera.photo_id p ≠ IdString s))
  ∧ (IdString s ∉ Camera.photo_id <$> Camera.ui_photos ui')
  ∧ Camera.ui_error ui' = Camera.ui_error ui.
Proof.
  intros ui ui'. subst ui'.
  assert (Camera.hasServerId (Camera.ui_photos ui) (IdString s) = false) as Hno
    by (apply hasServerId_string, run_wellFormed; constructor).
  unfold Camera.deleteCall, Camera.deletePhoto. rewrite Hno.
  repeat split. apply filter_removes_id.
Qed.

Lemma markFailed_other (tempId : Id) (l : list Camera.Photo) :
  (tempId ∉ Camera.photo_id <$> l) → Camera.markFailed tempId <$> l = l.
Proof.
  induction l as [|p l IH]; intros H; [done|].
  rewrite fmap_cons in H. apply not_elem_of_cons in H as [Hp Hl].
  rewrite fmap_cons, IH by done. unfold Camera.markFailed.
  by rewrite decide_False.
Qed.

(** The upload route answers 200, 400 or 500. *)
Lemma postUpload_status (cfg : Config) (st : State)
    (part : option Multer.Part) (env : UploadEnv) :
  let r := postUpload cfg st part env in
  status r.1 = 200 ∨ (status r.1 = 400 ∨ status r.1 = 500) ∧ photos r.2 = photos st.
Proof.
  intros r. subst r.
  destruct (postUpload_cases part env)
    as [->|[(p & -> & Himg)|[(p & msg & residue & -> & Himg & Hw)
       |[(p & -> & Himg & Hw & Hbig)|(p & -> & Hacc)]]]].
  - rewrite postUpload_no_file. right. split; [by left|done].
  - rewrite postUpload_filtered by done. right. split; [by right|done].
  - rewrite (postUpload_write_error cfg st p env msg residue) by done.
    right. split; [by right|done].
  - rewrite postUpload_too_large by done. right. split; [by left|done].
  - rewrite postUpload_accepted by done. by left.
Qed.

(** X19: an upload of the client that fails, end to end.  When the blob
    of the canvas is missing, so that the call throws, or when the server
    answers the upload with another status than 200, the server has
    appended no record, and the client keeps the photo in front of its
    list under its temporary id, marked as failed and no longer uploading,
    and shows the error 'Failed to upload photo to server'; the photos
    behind it are as before. *)
Theorem client_upload_failure_end_to_end (cfg : Config) (st : State)
    (ui : Camera.Ui) (now : Z) (photoDataUrl : string) (stamp : Z)
    (blob : option Api.Blob) (now' : Z) (env : UploadEnv) :
  let served :=
    (λ call, postUpload cfg st (Api.formData call) env)
      <$> Camera.uploadCall blob now' in
  (Camera.tempId now ∉ Camera.photo_id <$> Camera.ui_photos ui) →
  (∀ r, served = Some r → status r.1 ≠ 200) →
  let taken := Camera.takePhoto ui now photoDataUrl stamp in
  let ui' := Camera.uploadPhotoToServer taken (Camera.tempId now)
               (Camera.uploadedPhoto (fst <$> served)) in
  (∀ r, served = Some r → photos r.2 = photos st)
  ∧ Camera.ui_photos ui'
    = {| Camera.photo_id := Camera.tempId now;
         Camera.photo_data := Some photoDataUrl;
         Camera.photo_timestamp := stamp;
         Camera.photo_isUploading := Some false;
         Camera.photo_serverId := None;
         Camera.photo_url := None;
         Camera.photo_uploadFailed := Some true;
         Camera.photo_filename := None |}
      :: Camera.ui_photos ui
  ∧ Camera.ui_error ui' = "Failed to upload photo to server"
  ∧ Camera.ui_uploading ui' = false.
Proof.
  intros served Hfresh Hstatus taken ui'.
  assert (Camera.uploadedPhoto (fst <$> served) = None) as Hnone.
  { destruct served as [r|] eqn:E; [|done].
    specialize (Hstatus r eq_refl). subst served.
    destruct (Camera.uploadCall blob now') as [call|]; [|done].
    injection E as <-.
    destruct (postUpload_status cfg st (Api.formData call) env)
      as [H200|[[H|H] _]]; [done|..];
      unfold Camera.uploadedPhoto, resolves; cbn [fmap option_fmap option_map];
      rewrite decide_False; (done || lia). }
  split.
  - intros r Hr. specialize (Hstatus r Hr). subst served.
    destruct (Camera.uploadCall blob now') as [call|]; [|done].
    injection Hr as <-.
    by destruct (postUpload_status cfg st (Api.formData call) env)
      as [H200|[_ Hphotos]].
  - subst ui'. rewrite Hnone. subst taken.
    unfold Camera.uploadPhotoToServer, Camera.takePhoto, Camera.setPhotos,
      Camera.setUploading, Camera.setError.
    cbn [Camera.ui_photos Camera.ui_error Camera.ui_uploading].
    repeat split. rewrite fmap_cons, markFailed_other by done.
    unfold Camera.markFailed, Camera.tempPhoto. cbn [Camera.photo_id].
    by rewrite decide_True.
Qed.

(** An instance: the disk of the server is full. *)
Lemma client_upload_failure_end_to_end_witness :
  let served :=
    (λ call, postUpload backendConfig (initial ∅) (Api.formData call)
                        (diskFullAt 1700000000002 42))
      <$> Camera.uploadCall (Some canvasBlob) 1700000000001 in
  let taken := Camera.takePhoto Camera.mounted 1700000000000
                                "data:image/jpeg;base64,/9j/4A==" 1700000000000 in
  let ui' := Camera.uploadPhotoToServer taken (Camera.tempId 1700000000000)
               (Camera.uploadedPhoto (fst <$> served)) in
  (∀ r, served = Some r → status r.1 = 500)
  ∧ (∀ r, served = Some r → photos r.2 = [])
  ∧ Camera.ui_photos ui'
    = [{| Camera.photo_id := IdString "temp-1700000000000";
          Camera.photo_data := Some "data:image/jpeg;base64,/9j/4A==";
          Camera.photo_timestamp := 1700000000000;
          Camera.photo_isUploading := Some false;
          Camera.photo_serverId := None;
          Camera.photo_url := None;
          Camera.photo_uploadFailed := Some true;
          Camera.photo_filename := None |}]
  ∧ Camera.ui_error ui' = "Failed to upload photo to server"
  ∧ Camera.ui_uploading ui' = false.
Proof.
  intros served taken ui'.
  assert (∀ r, served = Some r → status r.1 = 500) as H500.
  { intros r Hr. subst served.
    cbn [Camera.uploadCall Api.uploadPhoto fmap option_fmap option_map] in Hr.
    injection Hr as <-.
    by rewrite (postUpload_write_error _ _ _ _
                  "ENOSPC: no space left on device, write"
                  (Some ["255"; "216"]%byte)). }
  split; [exact H500|].
  assert (Camera.tempId 1700000000000
          ∉ Camera.photo_id <$> Camera.ui_photos Camera.mounted) as Hfresh
    by (intros H; by apply elem_of_nil in H).
  apply (client_upload_failure_end_to_end backendConfig (initial ∅)
           Camera.mounted 1700000000000 "data:image/jpeg;base64,/9j/4A=="
           1700000000000 (Some canvasBlob) 1700000000001
           (diskFullAt 1700000000002 42) Hfresh).
  intros r Hr. rewrite (H500 r Hr). discriminate.
Defined.
